(** * MADR parser: a shallow embedding of [madr_parser.py] and its properties

    The parser receives the abstract syntax tree that the Markdown library
    returns for a document (a list of dictionaries) and fills a record with
    the title, the named level-2 sections and the pros and cons of every
    option.  The embedding follows the Python code function by function:

    - a node is a dictionary with the keys the parser reads ([type],
      [attrs.level], [children], [raw]); a key that may be absent is an
      [option];
    - a Python exception is a value of [exn]; fallible functions return
      [result];
    - a Python [dict] is an insertion-ordered association list ([Dict]);
    - a Python [str] is a [string] whose characters are code points below
      256; [strip] removes the characters that [str.isspace] accepts in
      that range. *)

From Stdlib Require Import String Ascii List ZArith Bool Lia.
Import ListNotations.
Open Scope string_scope.
Open Scope list_scope.

Set Implicit Arguments.

(* ===================================================================== *)
(** ** Python strings *)
(* ===================================================================== *)

Module PyStr.

(** [str.isspace] on one character: TAB, LF, VT, FF, CR, the separators
    FS, GS, RS, US, the space, NEL and the no-break space. *)
Definition isspace (c : ascii) : bool :=
  let n := N_of_ascii c in
  (((9 <=? n) && (n <=? 13)) || ((28 <=? n) && (n <=? 32))
   || (n =? 133) || (n =? 160))%N.

(** Truth value of a string: only the empty string is false. *)
Definition truthy (s : string) : bool :=
  match s with
  | EmptyString => false
  | String _ _ => true
  end.

Fixpoint lstrip (s : string) : string :=
  match s with
  | EmptyString => EmptyString
  | String c s' => if isspace c then lstrip s' else s
  end.

Fixpoint rstrip (s : string) : string :=
  match s with
  | EmptyString => EmptyString
  | String c s' =>
      let r := rstrip s' in
      if isspace c && negb (truthy r) then EmptyString else String c r
  end.

(** [s.strip()] *)
Definition strip (s : string) : string := lstrip (rstrip s).

(** [sep.join(parts)] *)
Definition join (sep : string) (parts : list string) : string :=
  String.concat sep parts.

(** One double-quote character, for the sample document. *)
Definition dquote : string := String (ascii_of_nat 34) EmptyString.

End PyStr.

Import PyStr.

(* ===================================================================== *)
(** ** Exceptions and results *)
(* ===================================================================== *)

(** The two exceptions the parser can raise: the [ValueError] of
    [_extract_title] and the [KeyError] of a subscript on a missing key. *)
Inductive exn : Type :=
| ValueError (msg : string)
| KeyError (key : string).

Inductive result (A : Type) : Type :=
| Ok (a : A)
| Raise (e : exn).

Arguments Ok {A} a.
Arguments Raise {A} e.

Definition bind {A B : Type} (r : result A) (k : A -> result B) : result B :=
  match r with
  | Ok a => k a
  | Raise e => Raise e
  end.

Notation "x <- c ;; k" := (bind c (fun x => k))
  (at level 61, c at next level, right associativity).

(** The message of the only [ValueError]. *)
Definition MissingTitleError : exn :=
  ValueError "MADR title (level-1 heading) not found".

(* ===================================================================== *)
(** ** Python dictionaries *)
(* ===================================================================== *)

Module Dict.

Section Ops.
Variable V : Type.

(** Entries in insertion order; every key occurs at most once in a
    dictionary built with [set] from [empty]. *)
Definition t := list (string * V).

Definition empty : t := [].

(** [d.get(k)] *)
Fixpoint get (d : t) (k : string) : option V :=
  match d with
  | [] => None
  | (k', v) :: d' => if String.eqb k k' then Some v else get d' k
  end.

(** [d[k] = v]: an existing key keeps its position, a new key goes to
    the end. *)
Fixpoint set (d : t) (k : string) (v : V) : t :=
  match d with
  | [] => [(k, v)]
  | (k', v') :: d' =>
      if String.eqb k k' then (k', v) :: d' else (k', v') :: set d' k v
  end.

(** [k in d] *)
Definition mem (d : t) (k : string) : bool :=
  match get d k with
  | Some _ => true
  | None => false
  end.

(** Truth value of a dictionary: only the empty one is false. *)
Definition truthy (d : t) : bool :=
  match d with
  | [] => false
  | _ :: _ => true
  end.

Definition keys (d : t) : list string := map fst d.
End Ops.

Arguments empty {V}.

End Dict.

(* ===================================================================== *)
(** ** AST nodes *)
(* ===================================================================== *)

(** A node of the Markdown AST, with the keys the parser reads.
    [ntype] is [node["type"]]; [level] is [node["attrs"]["level"]], absent
    when [attrs] or [level] is; [children] and [raw] are the keys of the
    same name. *)
#[warning="-register-all"]
Inductive node : Type :=
  Node { ntype : string;
         level : option Z;
         children : option (list node);
         raw : option string }.

(** [not children]: the key is absent or the list is empty. *)
Definition no_children (n : node) : bool :=
  match children n with
  | None | Some [] => true
  | Some (_ :: _) => false
  end.

(** [node.get("raw", "")] *)
Definition raw_or_empty (n : node) : string :=
  match raw n with
  | Some s => s
  | None => ""
  end.

(** [_extract_text]: a childless node gives its raw string; otherwise the
    texts of the children are concatenated and the result is stripped. *)
Fixpoint _extract_text (n : node) : string :=
  match n with
  | Node _ _ cs r =>
      match cs with
      | None | Some [] => match r with Some s => s | None => "" end
      | Some l => strip (join "" (map _extract_text l))
      end
  end.

(** [_extract_nodes_text]: the non-empty texts of the nodes, joined by a
    newline, stripped. *)
Definition newline : string := String (ascii_of_nat 10) EmptyString.

Definition _extract_nodes_text (nodes : list node) : string :=
  strip (join newline (filter truthy (map _extract_text nodes))).

(* ===================================================================== *)
(** ** Section labels *)
(* ===================================================================== *)

(** The constants of the module [madr_labels], which [madr_parser.py]
    imports. *)
Record Labels : Type := {
  CONSIDERED_OPTIONS_LABEL : string;
  CONTEXT_LABEL : string;
  DECISION_CONFIRMATION_LABEL : string;
  DECISION_CONSEQUENCES_LABEL : string;
  DECISION_DRIVERS_LABEL : string;
  DECISION_OUTCOME_LABEL : string;
  MORE_INFO_LABEL : string;
  PROS_AND_CONS_LABEL : string }.

(** Modelled from the spec: the values of the label constants of
    [madr_labels], a module that is not part of the sources at hand.  The
    spec lists the recognised labels; it does not name the label of the
    confirmation section, which takes the name of that section in the MADR
    template. *)
Definition madr_labels : Labels := {|
  CONSIDERED_OPTIONS_LABEL := "Considered Options";
  CONTEXT_LABEL := "Context and Problem Statement";
  DECISION_CONFIRMATION_LABEL := "Confirmation";
  DECISION_CONSEQUENCES_LABEL := "Consequences";
  DECISION_DRIVERS_LABEL := "Decision Drivers";
  DECISION_OUTCOME_LABEL := "Decision Outcome";
  MORE_INFO_LABEL := "More Information";
  PROS_AND_CONS_LABEL := "Pros and Cons of the Options" |}.

(* ===================================================================== *)
(** ** The parser *)
(* ===================================================================== *)

(** [SectionValue = Union[str, List[str]]] *)
Inductive SectionValue : Type :=
| Text (s : string)
| Items (l : list string).

Definition SectionsMap := Dict.t SectionValue.

(** The dataclass [MADRParser]. *)
Record MADRParser : Type := {
  title : string;
  context : string;
  decision_outcome : string;
  decision_drivers : option (list string);
  considered_options : option (list string);
  decision_consequences : option string;
  decision_confirmation : option (list string);
  options_pros_and_cons : option (Dict.t (list string));
  more_info : option string }.

(** [node["type"] == "heading"] *)
Definition is_heading (n : node) : bool := ntype n =? "heading".

(** [node["type"] == "list"] *)
Definition is_list (n : node) : bool := ntype n =? "list".

(** [node["attrs"]["level"]]: a [KeyError] when the key is absent. A node
    keeps one optional field for the two subscripts, so that the exception
    names [level] also where Python would name [attrs]; the statements
    below do not depend on the name. *)
Definition attrs_level (n : node) : result Z :=
  match level n with
  | Some l => Ok l
  | None => Raise (KeyError "level")
  end.

(** [node["children"]]: a [KeyError] when the key is absent. *)
Definition get_children (n : node) : result (list node) :=
  match children n with
  | Some l => Ok l
  | None => Raise (KeyError "children")
  end.

(** [_extract_title]: the text of the first level-1 heading, a
    [ValueError] when the loop ends without one. *)
Fixpoint _extract_title (ast : list node) : result string :=
  match ast with
  | [] => Raise MissingTitleError
  | n :: rest =>
      if is_heading n then
        l <- attrs_level n ;;
        if (l =? 1)%Z then Ok (_extract_text n) else _extract_title rest
      else _extract_title rest
  end.

(** The inner loop of [_extract_list] over the items of one list node. *)
Fixpoint list_items (items : list node) : result (list string) :=
  match items with
  | [] => Ok []
  | item :: rest =>
      cs <- get_children item ;;
      tl <- list_items rest ;;
      Ok (_extract_nodes_text cs :: tl)
  end.

(** The outer loop of [_extract_list]: the items of every list node of
    the bucket, in order. *)
Fixpoint collect_items (nodes : list node) : result (list string) :=
  match nodes with
  | [] => Ok []
  | n :: rest =>
      if is_list n then
        cs <- get_children n ;;
        here <- list_items cs ;;
        tl <- collect_items rest ;;
        Ok (here ++ tl)
      else collect_items rest
  end.

(** [_extract_list]: [items or None]. *)
Definition _extract_list (nodes : list node) : result (option (list string)) :=
  items <- collect_items nodes ;;
  match items with
  | [] => Ok None
  | _ :: _ => Ok (Some items)
  end.

(** The body of the loop of [_normalize_sections] for one bucket. *)
Definition normalize_bucket (nodes : list node) : result SectionValue :=
  lists <- _extract_list nodes ;;
  match lists with
  | Some l => Ok (Items l)
  | None => Ok (Text (_extract_nodes_text nodes))
  end.

(** [_normalize_sections]: the buckets are visited in insertion order and
    the values stored under the same names. *)
Fixpoint normalize_into (normalized : SectionsMap)
    (raw_sections : Dict.t (list node)) : result SectionsMap :=
  match raw_sections with
  | [] => Ok normalized
  | (name, nodes) :: rest =>
      v <- normalize_bucket nodes ;;
      normalize_into (Dict.set normalized name v) rest
  end.

Definition _normalize_sections (raw_sections : Dict.t (list node))
  : result SectionsMap :=
  normalize_into Dict.empty raw_sections.

(** The local variables of the loop of [_extract_sections]. *)
Record split_state : Type := {
  sections : Dict.t (list node);
  current_section : option string;
  buffer : list node }.

(** [if current_section:] the name is set and is not the empty string. *)
Definition active (cur : option string) : option string :=
  match cur with
  | Some name => if truthy name then Some name else None
  | None => None
  end.

(** [if current_section: sections[current_section] = buffer] *)
Definition flush (st : split_state) : Dict.t (list node) :=
  match active (current_section st) with
  | Some name => Dict.set (sections st) name (buffer st)
  | None => sections st
  end.

(** [if current_section: buffer.append(node)] *)
Definition keep (st : split_state) (n : node) : split_state :=
  match active (current_section st) with
  | Some _ =>
      {| sections := sections st;
         current_section := current_section st;
         buffer := buffer st ++ [n] |}
  | None => st
  end.

(** One turn of the loop of [_extract_sections]. *)
Definition split_step (st : split_state) (n : node) : result split_state :=
  if is_heading n then
    l <- attrs_level n ;;
    let heading_text := _extract_text n in
    if (l =? 2)%Z then
      Ok {| sections := flush st;
            current_section := Some heading_text;
            buffer := [] |}
    else Ok (keep st n)
  else Ok (keep st n).

Fixpoint split_loop (st : split_state) (ast : list node) : result split_state :=
  match ast with
  | [] => Ok st
  | n :: rest => st' <- split_step st n ;; split_loop st' rest
  end.

Definition split_init : split_state :=
  {| sections := Dict.empty; current_section := None; buffer := [] |}.

(** The buckets of [_extract_sections] before normalisation. *)
Definition raw_sections (ast : list node) : result (Dict.t (list node)) :=
  st <- split_loop split_init ast ;;
  Ok (flush st).

Definition _extract_sections (ast : list node) : result SectionsMap :=
  raw <- raw_sections ast ;;
  _normalize_sections raw.

(** The local variables of the loop of [_extract_options_pros_and_cons]. *)
Record pc_state : Type := {
  in_section : bool;
  current_option : option string;
  pc_result : Dict.t (list string) }.

(** How one turn of a loop ends: the loop goes on, or [break] leaves it. *)
Inductive ctl (S : Type) : Type :=
| Continue (s : S)
| Break (s : S).

Arguments Continue {S} s.
Arguments Break {S} s.

Definition state_of {S : Type} (c : ctl S) : S :=
  match c with
  | Continue s => s
  | Break s => s
  end.

(** [result[opt].append(text)]: a [KeyError] when [opt] is not a key. *)
Definition append_at (d : Dict.t (list string)) (opt text : string)
  : result (Dict.t (list string)) :=
  match Dict.get d opt with
  | Some l => Ok (Dict.set d opt (l ++ [text]))
  | None => Raise (KeyError opt)
  end.

(** [item.get("children", [])] *)
Definition children_or_empty (n : node) : list node :=
  match children n with
  | Some l => l
  | None => []
  end.

(** The loop over the items of a list node: every item with a non-empty
    text is appended to the bullets of [opt]. *)
Fixpoint append_items (d : Dict.t (list string)) (opt : string)
    (items : list node) : result (Dict.t (list string)) :=
  match items with
  | [] => Ok d
  | item :: rest =>
      let text := _extract_nodes_text (children_or_empty item) in
      if truthy text then
        d' <- append_at d opt text ;;
        append_items d' opt rest
      else append_items d opt rest
  end.

(** [node.get("attrs", {}).get("level") == l] *)
Definition level_is (n : node) (l : Z) : bool :=
  match level n with
  | Some l' => (l' =? l)%Z
  | None => false
  end.

(** The last statement of the loop body: list items go to the current
    option. *)
Definition pc_collect (st : pc_state) (n : node) : result (ctl pc_state) :=
  match active (current_option st) with
  | Some opt =>
      if in_section st && is_list n then
        d <- append_items (pc_result st) opt (children_or_empty n) ;;
        Ok (Continue {| in_section := in_section st;
                        current_option := current_option st;
                        pc_result := d |})
      else Ok (Continue st)
  | None => Ok (Continue st)
  end.

Section WithLabels.
Variable L : Labels.

(** One turn of the loop of [_extract_options_pros_and_cons]. *)
Definition pc_step (st : pc_state) (n : node) : result (ctl pc_state) :=
  if is_heading n then
    let heading_text := _extract_text n in
    if level_is n 2 then
      if in_section st && negb (heading_text =? PROS_AND_CONS_LABEL L)%string
      then Ok (Break st)
      else Ok (Continue {| in_section := (heading_text =? PROS_AND_CONS_LABEL L)%string;
                           current_option := None;
                           pc_result := pc_result st |})
    else if in_section st && level_is n 3 then
      Ok (Continue {| in_section := in_section st;
                      current_option := Some heading_text;
                      pc_result :=
                        if Dict.mem (pc_result st) heading_text
                        then pc_result st
                        else Dict.set (pc_result st) heading_text [] |})
    else pc_collect st n
  else pc_collect st n.

(** The loop; its value tells whether [break] ended it. *)
Fixpoint pc_loop (st : pc_state) (ast : list node) : result (ctl pc_state) :=
  match ast with
  | [] => Ok (Continue st)
  | n :: rest =>
      c <- pc_step st n ;;
      match c with
      | Continue st' => pc_loop st' rest
      | Break st' => Ok (Break st')
      end
  end.

Definition pc_init : pc_state :=
  {| in_section := false; current_option := None; pc_result := Dict.empty |}.

(** [_extract_options_pros_and_cons]: [result or None]. *)
Definition _extract_options_pros_and_cons (ast : list node)
  : result (option (Dict.t (list string))) :=
  c <- pc_loop pc_init ast ;;
  let result := pc_result (state_of c) in
  Ok (if Dict.truthy result then Some result else None).

(** [_get_str], with the default [""] of its third parameter. *)
Definition _get_str (sections : SectionsMap) (key : string) : string :=
  match Dict.get sections key with
  | Some (Text s) => s
  | Some (Items l) => join newline l
  | None => ""
  end.

(** [_get_list] *)
Definition _get_list (sections : SectionsMap) (key : string)
  : option (list string) :=
  match Dict.get sections key with
  | Some (Items l) => Some l
  | Some (Text _) => None
  | None => None
  end.

(** [parse], from the AST that [_parse_ast] returns for the document. *)
Definition parse (ast : list node) : result MADRParser :=
  title <- _extract_title ast ;;
  sections <- _extract_sections ast ;;
  options <- _extract_options_pros_and_cons ast ;;
  Ok {| title := title;
        context := _get_str sections (CONTEXT_LABEL L);
        decision_outcome := _get_str sections (DECISION_OUTCOME_LABEL L);
        decision_drivers := _get_list sections (DECISION_DRIVERS_LABEL L);
        considered_options := _get_list sections (CONSIDERED_OPTIONS_LABEL L);
        decision_consequences :=
          Some (_get_str sections (DECISION_CONSEQUENCES_LABEL L));
        decision_confirmation :=
          _get_list sections (DECISION_CONFIRMATION_LABEL L);
        options_pros_and_cons := options;
        more_info := Some (_get_str sections (MORE_INFO_LABEL L)) |}.
End WithLabels.

(* ===================================================================== *)
(** ** Nodes as the Markdown library builds them *)
(* ===================================================================== *)

(** Constructors for the tokens of the Markdown library: an inline text
    run carries [raw]; a heading carries [attrs.level] and its inline
    children; a list carries its items, each item a block of inline
    children; a blank line carries nothing. *)
Module Md.

Definition text (s : string) : node :=
  {| ntype := "text"; level := None; children := None; raw := Some s |}.

Definition softbreak : node :=
  {| ntype := "softbreak"; level := None; children := None; raw := None |}.

Definition blank_line : node :=
  {| ntype := "blank_line"; level := None; children := None; raw := None |}.

Definition heading (l : Z) (inl : list node) : node :=
  {| ntype := "heading"; level := Some l; children := Some inl; raw := None |}.

Definition paragraph (inl : list node) : node :=
  {| ntype := "paragraph"; level := None; children := Some inl; raw := None |}.

Definition link (inl : list node) : node :=
  {| ntype := "link"; level := None; children := Some inl; raw := None |}.

Definition block_text (inl : list node) : node :=
  {| ntype := "block_text"; level := None; children := Some inl; raw := None |}.

Definition list_item (blocks : list node) : node :=
  {| ntype := "list_item"; level := None; children := Some blocks; raw := None |}.

Definition md_list (items : list node) : node :=
  {| ntype := "list"; level := None; children := Some items; raw := None |}.

(** A heading with one text run, a bullet with one text run, a tight
    bullet list. *)
Definition h (l : Z) (s : string) : node := heading l [text s].
Definition bullet (s : string) : node := list_item [block_text [text s]].
Definition bullets (l : list string) : node := md_list (map bullet l).

End Md.

(** The document of [test_parser.py], as the Markdown library tokenises
    it. *)
Module Sample.
Import Md.

Definition good_readable : string := "Good, because tests are more readable".
Definition good_easy : string := "Good, because more easy to write tests".
Definition good_matchers : string := "Good, because offers advanced matchers".
Definition bad_fluent : string := "Bad, because not full fluent API".

Definition markdown : list node :=
  [ h 1 "Use Plain JUnit5 for advanced test assertions"; blank_line;
    h 2 "Context and Problem Statement"; blank_line;
    paragraph [ text "How to write readable test assertions?"; softbreak;
                text "How to write readable test assertions for advanced tests?" ];
    blank_line;
    h 2 "Considered Options"; blank_line;
    bullets ["Plain JUnit5"; "Hamcrest"; "AssertJ"]; blank_line;
    h 2 "Decision Outcome"; blank_line;
    paragraph [ text ("Chosen option: " ++ dquote ++ "Plain JUnit5" ++ dquote
                      ++ ", because comes out best.")%string ];
    blank_line;
    h 3 "Consequences"; blank_line;
    bullets [good_readable; good_easy]; blank_line;
    h 2 "Pros and Cons of the Options"; blank_line;
    h 3 "Plain JUnit5"; blank_line;
    bullets [ ("Good, because Junit5 is " ++ dquote ++ "common Java knowledge"
               ++ dquote)%string;
              "Bad, because complex assertions tend to get hard to read" ];
    blank_line;
    h 3 "Hamcrest"; blank_line;
    bullets [good_matchers; bad_fluent] ].

End Sample.

(* ===================================================================== *)
(** ** Vocabulary of the statements *)
(* ===================================================================== *)

(** A heading of level [l]. *)
Definition is_h (l : Z) (n : node) : bool := is_heading n && level_is n l.

(** The document has a level-1 heading among its top-level nodes. *)
Definition has_title (ast : list node) : bool := existsb (is_h 1) ast.

(** What the Markdown library guarantees of the nodes the parser
    subscripts: a heading has [attrs.level]; a list has [children], and so
    has each of its items. *)
Definition heading_ok (n : node) : bool :=
  negb (is_heading n) || match level n with Some _ => true | None => false end.

Definition has_children_key (n : node) : bool :=
  match children n with Some _ => true | None => false end.

Definition list_ok (n : node) : bool :=
  negb (is_list n)
  || (has_children_key n && forallb has_children_key (children_or_empty n)).

Definition wf_node (n : node) : bool := heading_ok n && list_ok n.

Definition wf_ast (ast : list node) : bool := forallb wf_node ast.

(** A list node with at least one item, as every list of a Markdown
    document has. *)
Definition has_items (n : node) : bool :=
  is_list n && match children n with Some (_ :: _) => true | _ => false end.

(** The text of one list item, as [_extract_list] computes it. *)
Definition item_text (item : node) : string :=
  _extract_nodes_text (children_or_empty item).

(** The texts of the items of every list node of a bucket, in order. *)
Definition all_items (nodes : list node) : list string :=
  flat_map (fun n => if is_list n then map item_text (children_or_empty n) else [])
           nodes.

(** The value of a bucket: its list items when it has any, else its
    text. *)
Definition section_value (nodes : list node) : SectionValue :=
  match all_items nodes with
  | [] => Text (_extract_nodes_text nodes)
  | _ :: _ => Items (all_items nodes)
  end.

(** The non-empty item texts of one list node. *)
Definition bullets_of (n : node) : list string :=
  filter truthy (map item_text (children_or_empty n)).

(** The level-2 heading that opens the pros and cons section. *)
Definition is_pros (L : Labels) (n : node) : bool :=
  is_h 2 n && (_extract_text n =? PROS_AND_CONS_LABEL L)%string.

(** A level-[l] heading whose text is [t]. *)
Definition is_h_named (l : Z) (t : string) (n : node) : bool :=
  is_h l n && (_extract_text n =? t)%string.

(** *** The loops without their exceptions

    [split_next] is [split_step] on a heading that has its level;
    [pc_next] is [pc_step] when the current option is a key of the result.
    Lemmas [split_step_ok] and [pc_step_ok] below relate them. *)

Definition split_next (st : split_state) (n : node) : split_state :=
  if is_h 2 n then
    {| sections := flush st;
       current_section := Some (_extract_text n);
       buffer := [] |}
  else keep st n.

Definition split_run (st : split_state) (ast : list node) : split_state :=
  fold_left split_next ast st.

(** Invariants of the loop: the empty string is no key, no key occurs
    twice, and the buckets hold nodes of the document. *)
Record split_inv (P : node -> Prop) (st : split_state) : Prop := {
  inv_no_empty_key : Dict.get (sections st) "" = None;
  inv_nodup : NoDup (Dict.keys (sections st));
  inv_buckets : Forall (fun kv => Forall P (snd kv)) (sections st);
  inv_buffer : Forall P (buffer st) }.

Definition get_or_nil (d : Dict.t (list string)) (k : string) : list string :=
  match Dict.get d k with
  | Some l => l
  | None => []
  end.

Definition pc_collect_next (st : pc_state) (n : node) : pc_state :=
  match active (current_option st) with
  | Some opt =>
      if in_section st && is_list n then
        {| in_section := in_section st;
           current_option := current_option st;
           pc_result := Dict.set (pc_result st) opt
                          (get_or_nil (pc_result st) opt ++ bullets_of n) |}
      else st
  | None => st
  end.

Definition pc_next (L : Labels) (st : pc_state) (n : node) : ctl pc_state :=
  if is_h 2 n then
    if in_section st && negb (_extract_text n =? PROS_AND_CONS_LABEL L)%string
    then Break st
    else Continue {| in_section := (_extract_text n =? PROS_AND_CONS_LABEL L)%string;
                     current_option := None;
                     pc_result := pc_result st |}
  else if in_section st && is_h 3 n then
    Continue {| in_section := in_section st;
                current_option := Some (_extract_text n);
                pc_result :=
                  if Dict.mem (pc_result st) (_extract_text n)
                  then pc_result st
                  else Dict.set (pc_result st) (_extract_text n) [] |}
  else Continue (pc_collect_next st n).

Fixpoint pc_run (L : Labels) (st : pc_state) (ast : list node) : ctl pc_state :=
  match ast with
  | [] => Continue st
  | n :: rest =>
      match pc_next L st n with
      | Continue st' => pc_run L st' rest
      | Break st' => Break st'
      end
  end.

(** The state in which the loop enters the section for the first time. *)
Definition pc_entered : pc_state :=
  {| in_section := true; current_option := None; pc_result := Dict.empty |}.

(** The state after a level-3 heading read inside the section. *)
Definition pc_at_option (st : pc_state) (h : node) : pc_state :=
  {| in_section := in_section st;
     current_option := Some (_extract_text h);
     pc_result := if Dict.mem (pc_result st) (_extract_text h)
                  then pc_result st
                  else Dict.set (pc_result st) (_extract_text h) [] |}.

(** The invariant that rules the [KeyError] of [append_at] out: the
    current option is a key of the result. *)
Definition pc_inv (st : pc_state) : Prop :=
  forall opt, current_option st = Some opt ->
              Dict.mem (pc_result st) opt = true.

(** *** Same-named sections

    [agree_except t d1 d2]: the dictionaries have the same keys in the same
    order and the same values, the value of [t] apart. *)
Definition agree_except (V : Type) (t : string) (d1 d2 : Dict.t V) : Prop :=
  Forall2 (fun p q => fst p = fst q /\ (fst p <> t -> snd p = snd q)) d1 d2.

(** Two states of the splitter that differ at most in the bucket of [t]:
    [differ_in_bucket] while a section named [t] may still be open with
    different buffers, [differ_in_entry] once a later section named [t]
    has opened. *)
Definition differ_in_bucket (t : string) (st1 st2 : split_state) : Prop :=
  current_section st1 = current_section st2
  /\ agree_except t (sections st1) (sections st2)
  /\ NoDup (Dict.keys (sections st1))
  /\ (buffer st1 = buffer st2 \/ active (current_section st1) = Some t).

Definition differ_in_entry (t : string) (st1 st2 : split_state) : Prop :=
  current_section st1 = current_section st2
  /\ buffer st1 = buffer st2
  /\ NoDup (Dict.keys (sections st1))
  /\ (sections st1 = sections st2
      \/ (agree_except t (sections st1) (sections st2)
          /\ active (current_section st1) = Some t)).

(** The fields of the record that are read from the sections. *)
Definition section_fields (r : MADRParser) :=
  (context r, decision_outcome r, decision_drivers r, considered_options r,
   decision_consequences r, decision_confirmation r, more_info r).

(** The reading of last-wins that covers the whole record: the content of
    a section that a later section of the same name follows can be changed
    without changing the record. *)
Definition earlier_section_never_shows (L : Labels) : Prop :=
  forall (pre : list node) (h : node) (body body' mid : list node) (h' : node)
         (rest : list node) (r r' : MADRParser),
    is_h 2 h = true -> is_h 2 h' = true ->
    _extract_text h = _extract_text h' ->
    forallb (fun n => negb (is_h 1 n) && negb (is_h 2 n)) body = true ->
    forallb (fun n => negb (is_h 1 n) && negb (is_h 2 n)) body' = true ->
    parse L (pre ++ h :: body ++ mid ++ h' :: rest) = Ok r ->
    parse L (pre ++ h :: body' ++ mid ++ h' :: rest) = Ok r' ->
    r = r'.

(** *** The reading of the text helper that strips once

    [leaf_text] is the depth-first concatenation of the raw strings of the
    leaves; [flatten_top_only] strips it once, at the node the helper is
    called on, and leaves a childless node as it is. *)
Fixpoint leaf_text (n : node) : string :=
  match n with
  | Node _ _ cs r =>
      match cs with
      | None | Some [] => match r with Some s => s | None => "" end
      | Some l => join "" (map leaf_text l)
      end
  end.

Definition flatten_top_only (n : node) : string :=
  if no_children n then raw_or_empty n else strip (leaf_text n).

(** A string without leading or trailing whitespace. *)
Definition trimmed (s : string) : bool := (strip s =? s)%string.

(** Every proper descendant that has children has a text without leading
    or trailing whitespace. *)
Fixpoint inner_trimmed (n : node) : bool :=
  match n with
  | Node _ _ cs _ =>
      match cs with
      | None => true
      | Some l =>
          forallb (fun c => (no_children c || trimmed (leaf_text c))
                            && inner_trimmed c) l
      end
  end.

(** *** Vocabulary of the further properties *)

(** The exception of [node["children"]] on a node without the key. *)
Definition KeyError_children : exn := KeyError "children".

(** The text of some level-2 heading of the document. *)
Definition h2_text_of (ast : list node) (k : string) : Prop :=
  exists h, In h ast /\ is_h 2 h = true /\ _extract_text h = k.

(** [d[k] = v] under [if k:]. *)
Definition set_named (V : Type) (d : Dict.t V) (k : string) (v : V) : Dict.t V :=
  if truthy k then Dict.set d k v else d.

(** Dictionaries that answer every lookup alike. *)
Definition same_lookups (V : Type) (d1 d2 : Dict.t V) : Prop :=
  forall k, Dict.get d1 k = Dict.get d2 k.

(** States of the splitter that differ at most in the order of the
    sections stored so far. *)
Definition same_but_order (st1 st2 : split_state) : Prop :=
  current_section st1 = current_section st2
  /\ buffer st1 = buffer st2
  /\ same_lookups (sections st1) (sections st2).

(** The non-empty item texts of the list nodes of a run of nodes, in
    order. *)
Definition seg_bullets (seg : list node) : list string :=
  flat_map (fun n => if is_list n then bullets_of n else []) seg.

(** Neither a level-2 nor a level-3 heading. *)
Definition no_h2_h3 (n : node) : bool := negb (is_h 2 n) && negb (is_h 3 n).

(** A level-2 or level-3 heading, or the end, comes next. *)
Definition at_boundary (tail : list node) : Prop :=
  tail = [] \/ exists r rest, tail = r :: rest /\ is_h 2 r || is_h 3 r = true.

(** The text of some level-3 heading of the document. *)
Definition h3_text_of (ast : list node) (k : string) : Prop :=
  exists h, In h ast /\ is_h 3 h = true /\ _extract_text h = k.

(** Every bullet stored satisfies [P]. *)
Definition bullets_satisfy (P : string -> bool) (st : pc_state) : Prop :=
  forall k items, Dict.get (pc_result st) k = Some items ->
                  forallb P items = true.

(** A string that neither begins nor ends with whitespace. *)
Definition starts_space (s : string) : bool :=
  match s with
  | EmptyString => false
  | String c _ => isspace c
  end.

Fixpoint ends_space (s : string) : bool :=
  match s with
  | EmptyString => false
  | String c EmptyString => isspace c
  | String _ s' => ends_space s'
  end.

Definition no_edge_space (s : string) : bool :=
  negb (starts_space s) && negb (ends_space s).

(** The option without a name has no bullet. *)
Definition nameless_is_empty (st : pc_state) : Prop :=
  forall items, Dict.get (pc_result st) "" = Some items -> items = [].

(** Every key, and the current option, is the text of a level-3 heading
    of the document. *)
Definition names_from_h3 (ast : list node) (st : pc_state) : Prop :=
  (forall k, Dict.mem (pc_result st) k = true -> h3_text_of ast k)
  /\ (forall opt, current_option st = Some opt -> h3_text_of ast opt).

(** *** The reading of the list items that flattens each item

    The items of the list nodes of a bucket, each flattened by the text
    helper applied to the item itself. *)
Definition flattened_items (nodes : list node) : list string :=
  flat_map (fun n => if is_list n then map _extract_text (children_or_empty n)
                     else [])
           nodes.

(** *** The bullets under the headings of one name

    [collecting t st]: the loop is at the option [t], and the name is not
    empty. [bullets_under t cur body]: the bullets of the lists of [body],
    a run of nodes of the section, that stand under a level-3 heading
    whose text is [t], when [t] is not empty; [cur] tells whether the run
    starts under such a heading. *)
Definition collecting (t : string) (st : pc_state) : bool :=
  match active (current_option st) with
  | Some opt => (opt =? t)%string
  | None => false
  end.

Fixpoint bullets_under (t : string) (cur : bool) (body : list node)
  : list string :=
  match body with
  | [] => []
  | n :: rest =>
      if is_h 3 n then
        bullets_under t ((_extract_text n =? t)%string && truthy t) rest
      else if cur && is_list n then bullets_of n ++ bullets_under t cur rest
      else bullets_under t cur rest
  end.

(** No level-3 heading of [body] whose text is [t] is followed by a
    bullet before the next level-3 heading. *)
Definition zero_bullets (t : string) (body : list node) : Prop :=
  forall b1 h' seg rest,
    body = b1 ++ h' :: seg ++ rest ->
    is_h_named 3 t h' = true ->
    forallb (fun n => negb (is_h 3 n)) seg = true ->
    seg_bullets seg = [].

(** The section ends here: the document does, or a level-2 heading with
    another text comes. *)
Definition section_ends (L : Labels) (post : list node) : Prop :=
  post = []
  \/ exists r post', post = r :: post' /\ is_h 2 r = true
                     /\ _extract_text r <> PROS_AND_CONS_LABEL L.

(** The reading of the empty option that looks at one heading only: a
    level-3 heading of the section with no bullet between it and the next
    level-2 or level-3 heading maps to the empty list. *)
Definition zero_bullets_give_empty (L : Labels) : Prop :=
  forall (pre : list node) (P : node) (b1 : list node) (h : node)
         (seg tail : list node) (d : Dict.t (list string)),
    existsb (is_pros L) pre = false ->
    is_pros L P = true ->
    forallb (fun n => negb (is_h 2 n)) b1 = true ->
    is_h 3 h = true ->
    forallb (fun n => no_h2_h3 n && negb (is_list n)) seg = true ->
    at_boundary tail ->
    _extract_options_pros_and_cons L (pre ++ P :: b1 ++ h :: seg ++ tail)
    = Ok (Some d) ->
    Dict.get d (_extract_text h) = Some [].

(* ===================================================================== *)
(** ** Lemmas on strings *)
(* ===================================================================== *)

Lemma truthy_false_iff (s : string) : truthy s = false <-> s = "".
Proof. destruct s; simpl; split; congruence. Qed.

Lemma truthy_true_iff (s : string) : truthy s = true <-> s <> "".
Proof. destruct s; simpl; split; congruence. Qed.

Lemma rstrip_idem (s : string) : rstrip (rstrip s) = rstrip s.
Proof.
  induction s as [|c s IH]; simpl; [reflexivity|].
  destruct (isspace c && negb (truthy (rstrip s))) eqn:E; simpl.
  - reflexivity.
  - rewrite IH, E. reflexivity.
Qed.

Lemma lstrip_idem (s : string) : lstrip (lstrip s) = lstrip s.
Proof.
  induction s as [|c s IH]; simpl; [reflexivity|].
  destruct (isspace c) eqn:E; simpl; [assumption|].
  rewrite E. reflexivity.
Qed.


Lemma rstrip_lstrip (s : string) : rstrip (lstrip s) = lstrip (rstrip s).
Proof.
  induction s as [|c s IH]; simpl; [reflexivity|].
  destruct (isspace c) eqn:E; simpl.
  - destruct (truthy (rstrip s)) eqn:T; simpl.
    + rewrite E. exact IH.
    + rewrite IH. apply truthy_false_iff in T. rewrite T. reflexivity.
  - rewrite E. reflexivity.
Qed.

Lemma strip_idem (s : string) : strip (strip s) = strip s.
Proof.
  unfold strip.
  rewrite (rstrip_lstrip (rstrip s)), rstrip_idem, lstrip_idem.
  reflexivity.
Qed.




Lemma trimmed_iff (s : string) : trimmed s = true <-> strip s = s.
Proof. unfold trimmed. apply String.eqb_eq. Qed.

(* ===================================================================== *)
(** ** Lemmas on dictionaries *)
(* ===================================================================== *)

Module DictFacts.
Import Dict.

Section Facts.
Variable V : Type.
Implicit Types (d : Dict.t V) (k : string) (v : V).

Lemma get_set_eq d k v : get (set d k v) k = Some v.
Proof.
  induction d as [|[k' v'] d IH]; simpl.
  - now rewrite String.eqb_refl.
  - destruct (String.eqb k k') eqn:E; simpl; rewrite E; auto.
Qed.

Lemma get_set_ne d k k' v : k <> k' -> get (set d k v) k' = get d k'.
Proof.
  intros Hne. induction d as [|[k0 v0] d IH]; simpl.
  - destruct (String.eqb_spec k' k); [congruence | reflexivity].
  - destruct (String.eqb_spec k k0) as [->|Hk]; simpl.
    + destruct (String.eqb_spec k' k0); [congruence | reflexivity].
    + now rewrite IH.
Qed.

Lemma set_get_same d k v : get d k = Some v -> set d k v = d.
Proof.
  induction d as [|[k' v'] d IH]; simpl; [discriminate|].
  destruct (String.eqb k k'); intros H.
  - congruence.
  - now rewrite IH.
Qed.

Lemma set_set d k v v' : set (set d k v) k v' = set d k v'.
Proof.
  induction d as [|[k0 v0] d IH]; simpl.
  - now rewrite String.eqb_refl.
  - destruct (String.eqb k k0) eqn:E; simpl; rewrite E; [reflexivity|].
    now rewrite IH.
Qed.

Lemma mem_set_eq d k v : mem (set d k v) k = true.
Proof. unfold mem. now rewrite get_set_eq. Qed.

Lemma mem_set_ne d k k' v : k <> k' -> mem (set d k v) k' = mem d k'.
Proof. intros H. unfold mem. now rewrite get_set_ne. Qed.

Lemma mem_set_mono d k k' v : mem d k' = true -> mem (set d k v) k' = true.
Proof.
  intros H. destruct (String.eqb_spec k k') as [->|Hne].
  - apply mem_set_eq.
  - now rewrite mem_set_ne.
Qed.


Lemma mem_truthy d k : mem d k = true -> truthy d = true.
Proof. destruct d; [discriminate | reflexivity]. Qed.

Lemma get_none_not_in d k : get d k = None <-> ~ In k (keys d).
Proof.
  induction d as [|[k' v'] d IH]; simpl.
  - tauto.
  - destruct (String.eqb_spec k k') as [->|Hne].
    + split; [discriminate | intros H; exfalso; apply H; now left].
    + rewrite IH. split.
      * intros H [E|E]; [congruence | contradiction].
      * intros H E. apply H. now right.
Qed.

Lemma keys_set d k v :
  keys (set d k v) = if mem d k then keys d else keys d ++ [k].
Proof.
  unfold mem. induction d as [|[k' v'] d IH]; simpl; [reflexivity|].
  destruct (String.eqb k k') eqn:E; simpl; [reflexivity|].
  rewrite IH. now destruct (get d k).
Qed.

Lemma NoDup_keys_set d k v : NoDup (keys d) -> NoDup (keys (set d k v)).
Proof.
  intros H. rewrite keys_set. unfold mem.
  destruct (get d k) eqn:E; [assumption|].
  apply get_none_not_in in E.
  apply NoDup_app; [assumption | repeat constructor; intros [] | ].
  intros x Hx [<-|[]]. contradiction.
Qed.

Lemma Forall_values_set (P : V -> Prop) d k v :
  Forall (fun kv => P (snd kv)) d -> P v ->
  Forall (fun kv => P (snd kv)) (set d k v).
Proof.
  intros Hd Hv. induction d as [|[k' v'] d IH]; simpl.
  - repeat constructor. exact Hv.
  - inversion Hd; subst. destruct (String.eqb k k'); constructor; auto.
Qed.
End Facts.

End DictFacts.

(* ===================================================================== *)
(** ** Lemmas on the text helper *)
(* ===================================================================== *)

(** Induction on a node that reaches the children through the list. *)
Section NodeInduction.
Variable P : node -> Prop.
Hypothesis Hleaf : forall t lv r, P (Node t lv None r).
Hypothesis Hkids : forall t lv l r, Forall P l -> P (Node t lv (Some l) r).

Fixpoint node_induction (n : node) : P n :=
  match n with
  | Node t lv cs r =>
      match cs with
      | None => Hleaf t lv r
      | Some l =>
          Hkids t lv r
            ((fix go (l : list node) : Forall P l :=
                match l with
                | [] => Forall_nil P
                | c :: l' => Forall_cons c (node_induction c) (go l')
                end) l)
      end
  end.
End NodeInduction.

Lemma extract_text_leaf (n : node) :
  no_children n = true -> _extract_text n = raw_or_empty n.
Proof.
  destruct n as [t lv [[|c cs]|] r]; simpl; intros H;
    solve [reflexivity | discriminate].
Qed.

Lemma extract_text_kids (n : node) (c : node) (cs : list node) :
  children n = Some (c :: cs) ->
  _extract_text n = strip (join "" (map _extract_text (c :: cs))).
Proof.
  destruct n as [t lv kids r]; simpl; intros ->. reflexivity.
Qed.

Lemma extract_text_stripped (n : node) :
  no_children n = false -> strip (_extract_text n) = _extract_text n.
Proof.
  destruct n as [t lv [[|c cs]|] r]; simpl; intros H; try discriminate.
  apply strip_idem.
Qed.


(** A node whose text is already stripped wherever the helper strips
    below it has the text of its leaves. *)
Lemma extract_text_leaf_text (n : node) :
  no_children n || trimmed (leaf_text n) = true ->
  inner_trimmed n = true ->
  _extract_text n = leaf_text n.
Proof.
  induction n as [t lv r | t lv l r IH] using node_induction;
    intros Hn Hin; [reflexivity|].
  destruct l as [|c cs]; [reflexivity|].
  assert (Hmap : map _extract_text (c :: cs) = map leaf_text (c :: cs)).
  { apply map_ext_in. intros x Hx.
    rewrite Forall_forall in IH.
    simpl in Hin. change (forallb (fun c0 => (no_children c0 || trimmed (leaf_text c0))
                                    && inner_trimmed c0) (c :: cs) = true) in Hin.
    rewrite forallb_forall in Hin.
    specialize (Hin x Hx). apply andb_true_iff in Hin as [H1 H2].
    now apply IH. }
  change (strip (join "" (map _extract_text (c :: cs)))
          = join "" (map leaf_text (c :: cs))).
  rewrite Hmap.
  simpl in Hn. apply trimmed_iff in Hn. exact Hn.
Qed.

(** The text of a list item with one block is the text of the item
    itself. *)
Lemma item_text_one_block (item c : node) :
  children item = Some [c] -> item_text item = _extract_text item.
Proof.
  intros H. unfold item_text, children_or_empty, _extract_nodes_text.
  rewrite H, (extract_text_kids item H). simpl.
  destruct (truthy (_extract_text c)) eqn:T.
  - reflexivity.
  - apply truthy_false_iff in T. rewrite T. reflexivity.
Qed.

(* ===================================================================== *)
(** ** Lemmas on the title extractor *)
(* ===================================================================== *)

Lemma is_h_heading_ok (l : Z) (n : node) : is_h l n = true -> heading_ok n = true.
Proof.
  unfold is_h, heading_ok, level_is.
  destruct (is_heading n), (level n); simpl; congruence.
Qed.

Lemma wf_ast_heading_ok (ast : list node) :
  wf_ast ast = true -> forallb heading_ok ast = true.
Proof.
  unfold wf_ast, wf_node. rewrite !forallb_forall.
  intros H x Hx. specialize (H x Hx). now apply andb_true_iff in H.
Qed.

Lemma wf_ast_list_ok (ast : list node) :
  wf_ast ast = true -> forallb list_ok ast = true.
Proof.
  unfold wf_ast, wf_node. rewrite !forallb_forall.
  intros H x Hx. specialize (H x Hx). now apply andb_true_iff in H.
Qed.

Lemma extract_title_cons (n : node) (rest : list node) :
  heading_ok n = true ->
  _extract_title (n :: rest)
  = if is_h 1 n then Ok (_extract_text n) else _extract_title rest.
Proof.
  unfold heading_ok, is_h, level_is, attrs_level. simpl.
  unfold attrs_level.
  destruct (is_heading n), (level n); simpl; try reflexivity; discriminate.
Qed.

Lemma extract_title_find (ast : list node) :
  forallb heading_ok ast = true ->
  _extract_title ast
  = match find (is_h 1) ast with
    | Some h => Ok (_extract_text h)
    | None => Raise MissingTitleError
    end.
Proof.
  induction ast as [|n rest IH]; [reflexivity|].
  intros H. apply andb_true_iff in H as [Hn Hrest].
  rewrite extract_title_cons by assumption. simpl.
  destruct (is_h 1 n); [reflexivity | now apply IH].
Qed.

Lemma find_first (A : Type) (f : A -> bool) (pre : list A) (x : A) (post : list A) :
  forallb (fun y => negb (f y)) pre = true -> f x = true ->
  find f (pre ++ x :: post) = Some x.
Proof.
  induction pre as [|y pre IH]; simpl; intros Hpre Hx.
  - now rewrite Hx.
  - apply andb_true_iff in Hpre as [Hy Hpre].
    apply negb_true_iff in Hy. rewrite Hy. now apply IH.
Qed.

Lemma find_none_existsb (A : Type) (f : A -> bool) (l : list A) :
  existsb f l = false -> find f l = None.
Proof.
  induction l as [|x l IH]; simpl; [reflexivity|].
  destruct (f x); simpl; [discriminate | exact IH].
Qed.

Lemma find_some_existsb (A : Type) (f : A -> bool) (l : list A) :
  existsb f l = true -> exists x, find f l = Some x.
Proof.
  induction l as [|x l IH]; simpl; [discriminate|].
  destruct (f x); simpl; [eauto | exact IH].
Qed.

(* ===================================================================== *)
(** ** Lemmas on the section splitter *)
(* ===================================================================== *)

Lemma split_step_ok (st : split_state) (n : node) :
  heading_ok n = true -> split_step st n = Ok (split_next st n).
Proof.
  unfold heading_ok, split_step, split_next, is_h, level_is, attrs_level.
  destruct (is_heading n), (level n) as [l|]; simpl; try reflexivity;
    try discriminate.
  now destruct (l =? 2)%Z.
Qed.

Lemma split_loop_ok (ast : list node) : forall st,
  forallb heading_ok ast = true -> split_loop st ast = Ok (split_run st ast).
Proof.
  induction ast as [|n rest IH]; intros st H; [reflexivity|].
  apply andb_true_iff in H as [Hn Hrest]. simpl.
  rewrite split_step_ok by assumption. simpl. now apply IH.
Qed.

Lemma split_loop_app (a b : list node) : forall st,
  split_loop st (a ++ b) = st' <- split_loop st a ;; split_loop st' b.
Proof.
  induction a as [|n a IH]; intros st; [reflexivity|].
  simpl. destruct (split_step st n); simpl; [apply IH | reflexivity].
Qed.

Lemma split_run_app (a b : list node) (st : split_state) :
  split_run st (a ++ b) = split_run (split_run st a) b.
Proof. apply fold_left_app. Qed.

Lemma active_some (cur : option string) (name : string) :
  active cur = Some name -> cur = Some name /\ name <> "".
Proof.
  destruct cur as [s|]; simpl; [|discriminate].
  destruct (truthy s) eqn:T; [|discriminate].
  intros [= ->]. split; [reflexivity | now apply truthy_true_iff].
Qed.

Lemma active_of_truthy (name : string) :
  name <> "" -> active (Some name) = Some name.
Proof. intros H. simpl. apply truthy_true_iff in H. now rewrite H. Qed.

(** While no section is active and no level-2 heading comes, the loop
    changes nothing. *)
Lemma split_run_idle (mid : list node) : forall st,
  active (current_section st) = None ->
  forallb (fun n => negb (is_h 2 n)) mid = true ->
  split_run st mid = st.
Proof.
  induction mid as [|n mid IH]; intros st Hact H; [reflexivity|].
  apply andb_true_iff in H as [Hn Hmid]. apply negb_true_iff in Hn.
  unfold split_run in *. simpl. unfold split_next at 2. rewrite Hn.
  unfold keep. rewrite Hact. now apply IH.
Qed.

(** While a section is active and no level-2 heading comes, every node
    goes to the buffer. *)
Lemma split_run_fill (body : list node) : forall st name,
  active (current_section st) = Some name ->
  forallb (fun n => negb (is_h 2 n)) body = true ->
  split_run st body
  = {| sections := sections st;
       current_section := current_section st;
       buffer := buffer st ++ body |}.
Proof.
  induction body as [|n body IH]; intros st name Hact H.
  - rewrite app_nil_r. now destruct st.
  - apply andb_true_iff in H as [Hn Hbody]. apply negb_true_iff in Hn.
    unfold split_run in *. simpl. unfold split_next at 2. rewrite Hn.
    unfold keep. rewrite Hact.
    rewrite (IH _ name); simpl; try assumption.
    now rewrite <- app_assoc.
Qed.

(** The entry of a name that no later level-2 heading bears is the one
    the loop started with. *)
Lemma split_run_frame (t : string) (l : list node) : forall st,
  active (current_section st) <> Some t ->
  forallb (fun n => negb (is_h_named 2 t n)) l = true ->
  Dict.get (flush (split_run st l)) t = Dict.get (sections st) t.
Proof.
  induction l as [|n l IH]; intros st Hact H.
  - unfold split_run, flush. simpl.
    destruct (active (current_section st)) as [name|] eqn:E; [|reflexivity].
    apply DictFacts.get_set_ne. congruence.
  - apply andb_true_iff in H as [Hn Hl]. apply negb_true_iff in Hn.
    unfold split_run in *. simpl. unfold split_next at 2.
    unfold is_h_named in Hn.
    destruct (is_h 2 n) eqn:E2; simpl in Hn.
    + rewrite IH; simpl; try assumption.
      * unfold flush.
        destruct (active (current_section st)) as [name|] eqn:E; [|reflexivity].
        apply DictFacts.get_set_ne. congruence.
      * apply String.eqb_neq in Hn.
        destruct (truthy (_extract_text n)); congruence.
    + unfold keep.
      destruct (active (current_section st)) as [name|] eqn:E.
      * rewrite IH; [reflexivity | cbn [current_section]; now rewrite E | exact Hl].
      * apply IH; [now rewrite E | exact Hl].
Qed.

Lemma flush_no_empty_key (st : split_state) :
  Dict.get (sections st) "" = None -> Dict.get (flush st) "" = None.
Proof.
  intros H. unfold flush.
  destruct (active (current_section st)) as [name|] eqn:E; [|assumption].
  apply active_some in E as [_ Hne].
  rewrite DictFacts.get_set_ne; [assumption | exact Hne].
Qed.

Lemma flush_nodup (st : split_state) :
  NoDup (Dict.keys (sections st)) -> NoDup (Dict.keys (flush st)).
Proof.
  intros H. unfold flush.
  destruct (active (current_section st)); [|assumption].
  now apply DictFacts.NoDup_keys_set.
Qed.

Lemma flush_buckets (P : node -> Prop) (st : split_state) :
  split_inv P st -> Forall (fun kv => Forall P (snd kv)) (flush st).
Proof.
  intros [_ _ Hb Hbuf]. unfold flush.
  destruct (active (current_section st)); [|assumption].
  now apply DictFacts.Forall_values_set.
Qed.

Lemma split_next_inv (P : node -> Prop) (st : split_state) (n : node) :
  split_inv P st -> P n -> split_inv P (split_next st n).
Proof.
  intros Hinv Hn. unfold split_next.
  destruct (is_h 2 n).
  - constructor; simpl.
    + apply flush_no_empty_key, Hinv.
    + apply flush_nodup, Hinv.
    + now apply flush_buckets.
    + constructor.
  - unfold keep. destruct (active (current_section st)); [|assumption].
    destruct Hinv as [H1 H2 H3 H4]. constructor; simpl; try assumption.
    apply Forall_app. split; [assumption | now constructor].
Qed.

Lemma split_run_inv (P : node -> Prop) (ast : list node) : forall st,
  split_inv P st -> Forall P ast -> split_inv P (split_run st ast).
Proof.
  induction ast as [|n ast IH]; intros st Hinv Hast; [assumption|].
  inversion Hast; subst. unfold split_run in *. simpl.
  apply IH; [now apply split_next_inv | assumption].
Qed.

Lemma split_init_inv (P : node -> Prop) : split_inv P split_init.
Proof. constructor; simpl; constructor. Qed.

(* ===================================================================== *)
(** ** Lemmas on the section normaliser *)
(* ===================================================================== *)

Lemma list_items_ok (items : list node) :
  forallb has_children_key items = true ->
  list_items items = Ok (map item_text items).
Proof.
  induction items as [|item rest IH]; [reflexivity|].
  intros H. apply andb_true_iff in H as [Hi Hrest].
  simpl. rewrite (IH Hrest).
  unfold has_children_key in Hi. unfold get_children, item_text, children_or_empty.
  destruct (children item); [reflexivity | discriminate].
Qed.

Lemma collect_items_ok (nodes : list node) :
  forallb list_ok nodes = true -> collect_items nodes = Ok (all_items nodes).
Proof.
  induction nodes as [|n rest IH]; [reflexivity|].
  intros H. apply andb_true_iff in H as [Hn Hrest].
  simpl. rewrite (IH Hrest). unfold list_ok in Hn.
  destruct (is_list n); simpl in *; [|reflexivity].
  apply andb_true_iff in Hn as [Hk Hitems].
  unfold has_children_key in Hk. unfold get_children, children_or_empty in *.
  destruct (children n) as [items|]; [|discriminate].
  simpl. now rewrite list_items_ok.
Qed.

Lemma normalize_bucket_ok (nodes : list node) :
  forallb list_ok nodes = true ->
  normalize_bucket nodes = Ok (section_value nodes).
Proof.
  intros H. unfold normalize_bucket, _extract_list, section_value.
  rewrite collect_items_ok by assumption. simpl.
  now destruct (all_items nodes).
Qed.

Lemma normalize_into_spec (raw : Dict.t (list node)) : forall acc,
  Forall (fun kv => Forall (fun n => list_ok n = true) (snd kv)) raw ->
  NoDup (Dict.keys raw) ->
  exists m,
    normalize_into acc raw = Ok m
    /\ forall k, Dict.get m k
                 = match Dict.get raw k with
                   | Some b => Some (section_value b)
                   | None => Dict.get acc k
                   end.
Proof.
  induction raw as [|[name nodes] rest IH]; intros acc Hok Hnd.
  - exists acc. split; reflexivity.
  - inversion Hok as [|? ? Hb Hrest]; subst.
    inversion Hnd as [|? ? Hnotin Hnd']; subst. simpl in Hb.
    simpl. rewrite normalize_bucket_ok
      by (apply forallb_forall; now apply Forall_forall).
    simpl.
    destruct (IH (Dict.set acc name (section_value nodes)) Hrest Hnd')
      as [m [Hm Hget]].
    exists m. split; [exact Hm|]. intros k. rewrite Hget.
    destruct (String.eqb_spec k name) as [->|Hne].
    + apply DictFacts.get_none_not_in in Hnotin. rewrite Hnotin.
      apply DictFacts.get_set_eq.
    + destruct (Dict.get rest k); [reflexivity|].
      apply DictFacts.get_set_ne. congruence.
Qed.

(** On a well-formed document the splitter and the normaliser raise
    nothing, and every section holds the value of its bucket. *)
Lemma extract_sections_spec (ast : list node) :
  wf_ast ast = true ->
  exists m,
    _extract_sections ast = Ok m
    /\ Dict.get m "" = None
    /\ forall k, Dict.get m k
                 = option_map section_value
                     (Dict.get (flush (split_run split_init ast)) k).
Proof.
  intros Hwf. unfold _extract_sections, raw_sections.
  rewrite split_loop_ok by now apply wf_ast_heading_ok.
  simpl.
  assert (Hinv : split_inv (fun n => list_ok n = true)
                   (split_run split_init ast)).
  { apply split_run_inv; [apply split_init_inv|].
    apply Forall_forall. apply forallb_forall. now apply wf_ast_list_ok. }
  destruct (normalize_into_spec Dict.empty
              (flush_buckets Hinv) (flush_nodup _ (inv_nodup Hinv)))
    as [m [Hm Hget]].
  exists m. split; [exact Hm|].
  assert (Hall : forall k, Dict.get m k
                 = option_map section_value
                     (Dict.get (flush (split_run split_init ast)) k)).
  { intros k. rewrite Hget.
    now destruct (Dict.get (flush (split_run split_init ast)) k). }
  split; [|exact Hall].
  rewrite Hall, flush_no_empty_key; [reflexivity | apply Hinv].
Qed.

(* ===================================================================== *)
(** ** Lemmas on the pros and cons extractor *)
(* ===================================================================== *)

Lemma append_items_ok (opt : string) (items : list node) :
  forall (d : Dict.t (list string)) (l : list string),
  Dict.get d opt = Some l ->
  append_items d opt items
  = Ok (Dict.set d opt (l ++ filter truthy (map item_text items))).
Proof.
  induction items as [|item rest IH]; intros d l Hget.
  - simpl. rewrite app_nil_r. now rewrite DictFacts.set_get_same.
  - simpl. fold (item_text item).
    destruct (truthy (item_text item)) eqn:T.
    + unfold append_at. rewrite Hget. simpl.
      rewrite (IH _ (l ++ [item_text item])) by apply DictFacts.get_set_eq.
      now rewrite DictFacts.set_set, <- app_assoc.
    + now apply IH.
Qed.

Lemma pc_collect_ok (st : pc_state) (n : node) :
  pc_inv st -> pc_collect st n = Ok (Continue (pc_collect_next st n)).
Proof.
  intros Hinv. unfold pc_collect, pc_collect_next.
  destruct (active (current_option st)) as [opt|] eqn:E; [|reflexivity].
  destruct (in_section st && is_list n); [|reflexivity].
  apply active_some in E as [Hcur _]. specialize (Hinv opt Hcur).
  unfold Dict.mem in Hinv. unfold get_or_nil.
  destruct (Dict.get (pc_result st) opt) as [l|] eqn:G; [|discriminate].
  now rewrite (append_items_ok _ _ _ G).
Qed.

Section PcFacts.
Variable L : Labels.

Lemma pc_step_ok (st : pc_state) (n : node) :
  pc_inv st -> pc_step L st n = Ok (pc_next L st n).
Proof.
  intros Hinv. unfold pc_step, pc_next, is_h.
  destruct (is_heading n); simpl.
  - destruct (level_is n 2); [now destruct (in_section st && _)|].
    destruct (in_section st && level_is n 3); [reflexivity|].
    now apply pc_collect_ok.
  - rewrite andb_false_r. now apply pc_collect_ok.
Qed.

Lemma pc_collect_next_inv (st : pc_state) (n : node) :
  pc_inv st -> pc_inv (pc_collect_next st n).
Proof.
  intros Hinv. unfold pc_collect_next.
  destruct (active (current_option st)) as [opt|]; [|assumption].
  destruct (in_section st && is_list n); [|assumption].
  intros o Ho. simpl in *. apply DictFacts.mem_set_mono. now apply Hinv.
Qed.

Lemma pc_next_inv (st : pc_state) (n : node) :
  pc_inv st -> pc_inv (state_of (pc_next L st n)).
Proof.
  intros Hinv. unfold pc_next.
  destruct (is_h 2 n).
  - destruct (in_section st && _); simpl; [assumption|].
    intros o Ho. discriminate.
  - destruct (in_section st && is_h 3 n); simpl.
    + intros o [= <-]. simpl.
      destruct (Dict.mem (pc_result st) (_extract_text n)) eqn:M;
        [assumption | apply DictFacts.mem_set_eq].
    + now apply pc_collect_next_inv.
Qed.

Lemma pc_loop_ok (ast : list node) : forall st,
  pc_inv st -> pc_loop L st ast = Ok (pc_run L st ast).
Proof.
  induction ast as [|n rest IH]; intros st Hinv; [reflexivity|].
  simpl. rewrite pc_step_ok by assumption. simpl.
  pose proof (pc_next_inv n Hinv) as Hnext.
  destruct (pc_next L st n); [now apply IH | reflexivity].
Qed.

Lemma pc_init_inv : pc_inv pc_init.
Proof. intros o Ho. discriminate. Qed.

(** The extractor raises nothing. *)
Lemma extract_options_ok (ast : list node) :
  _extract_options_pros_and_cons L ast
  = Ok (let result := pc_result (state_of (pc_run L pc_init ast)) in
        if Dict.truthy result then Some result else None).
Proof.
  unfold _extract_options_pros_and_cons.
  now rewrite pc_loop_ok by apply pc_init_inv.
Qed.

Lemma pc_run_app (a b : list node) : forall st,
  pc_run L st (a ++ b)
  = match pc_run L st a with
    | Continue st' => pc_run L st' b
    | Break st' => Break st'
    end.
Proof.
  induction a as [|n a IH]; intros st; [reflexivity|].
  simpl. destruct (pc_next L st n); [apply IH | reflexivity].
Qed.

(** Before the section opens nothing is collected. *)
Lemma pc_run_outside (l : list node) : forall st,
  in_section st = false ->
  existsb (is_pros L) l = false ->
  exists st', pc_run L st l = Continue st'
              /\ in_section st' = false
              /\ pc_result st' = pc_result st.
Proof.
  induction l as [|n l IH]; intros st Hout Hno.
  - exists st. auto.
  - simpl in Hno. apply orb_false_iff in Hno as [Hn Hl].
    simpl. unfold pc_next. rewrite Hout. simpl.
    unfold is_pros in Hn.
    destruct (is_h 2 n); simpl in Hn.
    + rewrite Hn.
      destruct (IH {| in_section := false; current_option := None;
                      pc_result := pc_result st |} eq_refl Hl)
        as [st' [H1 [H2 H3]]].
      exists st'. auto.
    + unfold pc_collect_next. rewrite Hout. simpl.
      destruct (active (current_option st)); now apply IH.
Qed.

(** Inside the section the loop stays inside until it breaks. *)
Lemma pc_run_inside (l : list node) : forall st st',
  in_section st = true \/ existsb (is_pros L) l = true ->
  pc_run L st l = Continue st' ->
  in_section st' = true.
Proof.
  induction l as [|n l IH]; intros st st' Hin Hrun.
  - simpl in *. destruct Hin as [Hin|Hin]; [|discriminate]. congruence.
  - simpl in Hrun.
    destruct (pc_next L st n) as [s|s] eqn:Hnext; [|discriminate].
    apply (IH s st'); [|exact Hrun].
    unfold pc_next in Hnext.
    destruct Hin as [Hin|Hex].
    + left. rewrite Hin in Hnext. simpl in Hnext.
      destruct (is_h 2 n).
      * destruct (_extract_text n =? PROS_AND_CONS_LABEL L)%string eqn:E;
          simpl in Hnext; [|discriminate].
        injection Hnext as <-. reflexivity.
      * destruct (is_h 3 n); injection Hnext as <-; [reflexivity|].
        unfold pc_collect_next.
        destruct (active (current_option st)); [|exact Hin].
        destruct (in_section st && is_list n); simpl; exact Hin.
    + simpl in Hex. unfold is_pros in Hex.
      destruct (is_h 2 n); simpl in Hex.
      * destruct (_extract_text n =? PROS_AND_CONS_LABEL L)%string eqn:E;
          simpl in Hex.
        -- left. rewrite andb_false_r in Hnext. injection Hnext as <-.
           reflexivity.
        -- now right.
      * now right.
Qed.

(** Without a level-2 heading the loop does not break and does not
    change sides. *)
Lemma pc_run_no_h2 (l : list node) : forall st,
  forallb (fun n => negb (is_h 2 n)) l = true ->
  exists st', pc_run L st l = Continue st'
              /\ in_section st' = in_section st.
Proof.
  induction l as [|n l IH]; intros st H.
  - exists st. auto.
  - apply andb_true_iff in H as [Hn Hl]. apply negb_true_iff in Hn.
    simpl. unfold pc_next. rewrite Hn.
    destruct (in_section st && is_h 3 n).
    + destruct (IH {| in_section := in_section st;
                      current_option := Some (_extract_text n);
                      pc_result :=
                        if Dict.mem (pc_result st) (_extract_text n)
                        then pc_result st
                        else Dict.set (pc_result st) (_extract_text n) [] |} Hl)
        as [st' [H1 H2]].
      exists st'. auto.
    + destruct (IH (pc_collect_next st n) Hl) as [st' [H1 H2]].
      exists st'. split; [exact H1|]. rewrite H2.
      unfold pc_collect_next.
      destruct (active (current_option st)); [|reflexivity].
      now destruct (in_section st && is_list n).
Qed.

(** A key of the result stays one. *)
Lemma pc_next_mono (t : string) (st : pc_state) (n : node) :
  Dict.mem (pc_result st) t = true ->
  Dict.mem (pc_result (state_of (pc_next L st n))) t = true.
Proof.
  intros H. unfold pc_next.
  destruct (is_h 2 n).
  - now destruct (in_section st && _).
  - destruct (in_section st && is_h 3 n); simpl.
    + destruct (Dict.mem (pc_result st) (_extract_text n));
        [assumption | now apply DictFacts.mem_set_mono].
    + unfold pc_collect_next.
      destruct (active (current_option st)); [|assumption].
      destruct (in_section st && is_list n); [|assumption].
      now apply DictFacts.mem_set_mono.
Qed.

Lemma pc_run_mono (t : string) (l : list node) : forall st,
  Dict.mem (pc_result st) t = true ->
  Dict.mem (pc_result (state_of (pc_run L st l))) t = true.
Proof.
  induction l as [|n l IH]; intros st H; [assumption|].
  simpl. pose proof (@pc_next_mono t st n H) as Hn.
  destruct (pc_next L st n); [now apply IH | assumption].
Qed.
End PcFacts.

Section PcFrame.
Variable L : Labels.
Variable t : string.

(** A turn of the loop leaves the bullets of [t] alone unless [t] is
    the current option or the node is a level-3 heading named [t]. *)
Lemma pc_next_frame (st : pc_state) (n : node) :
  is_h_named 3 t n = false ->
  current_option st <> Some t
  \/ (in_section st = true /\ is_h 2 n || is_h 3 n = true) ->
  Dict.get (pc_result (state_of (pc_next L st n))) t
  = Dict.get (pc_result st) t
  /\ forall st', pc_next L st n = Continue st' -> current_option st' <> Some t.
Proof.
  intros Hnamed Hcur. unfold pc_next, is_h_named in *.
  destruct (is_h 2 n) eqn:E2.
  - destruct (in_section st && _); simpl.
    + split; [reflexivity | discriminate].
    + split; [reflexivity|]. intros st' [= <-]. discriminate.
  - destruct (in_section st && is_h 3 n) eqn:E3; simpl.
    + apply andb_true_iff in E3 as [_ E3]. rewrite E3 in Hnamed.
      simpl in Hnamed. apply String.eqb_neq in Hnamed.
      split.
      * destruct (Dict.mem (pc_result st) (_extract_text n));
          [reflexivity | now apply DictFacts.get_set_ne].
      * intros st' [= <-]. simpl. congruence.
    + assert (Hc : current_option st <> Some t).
      { destruct Hcur as [Hc|[Hin Hh]]; [exact Hc|].
        rewrite Hin in E3. simpl in *. congruence. }
      unfold pc_collect_next.
      destruct (active (current_option st)) as [opt|] eqn:A.
      * apply active_some in A as [A _].
        destruct (in_section st && is_list n); simpl.
        -- split; [|intros st' [= <-]; exact Hc].
           apply DictFacts.get_set_ne. congruence.
        -- split; [reflexivity | intros st' [= <-]; exact Hc].
      * split; [reflexivity | intros st' [= <-]; exact Hc].
Qed.

Lemma pc_run_frame (l : list node) : forall st,
  current_option st <> Some t ->
  forallb (fun n => negb (is_h_named 3 t n)) l = true ->
  Dict.get (pc_result (state_of (pc_run L st l))) t
  = Dict.get (pc_result st) t.
Proof.
  induction l as [|n l IH]; intros st Hcur H; [reflexivity|].
  apply andb_true_iff in H as [Hn Hl]. apply negb_true_iff in Hn.
  destruct (@pc_next_frame st n Hn (or_introl Hcur)) as [Hget Hnext].
  simpl. destruct (pc_next L st n) as [s|s] eqn:E; simpl in *.
  - rewrite IH; [exact Hget | now apply Hnext | exact Hl].
  - exact Hget.
Qed.

(** Nodes that are neither level-2 or level-3 headings nor lists change
    nothing. *)
Lemma pc_run_quiet (seg : list node) (st : pc_state) :
  forallb (fun n => negb (is_h 2 n) && negb (is_h 3 n) && negb (is_list n))
          seg = true ->
  pc_run L st seg = Continue st.
Proof.
  induction seg as [|n seg IH]; intros H; [reflexivity|].
  apply andb_true_iff in H as [Hn Hseg].
  apply andb_true_iff in Hn as [Hn Hlist].
  apply andb_true_iff in Hn as [H2 H3].
  apply negb_true_iff in H2, H3, Hlist.
  simpl. unfold pc_next, pc_collect_next.
  rewrite H2, H3, Hlist, !andb_false_r.
  destruct (active (current_option st)); now apply IH.
Qed.
End PcFrame.

(* ===================================================================== *)
(** ** The parse as a whole *)
(* ===================================================================== *)

(** On a well-formed document [parse] raises only for want of a title,
    and the title it returns is the text of the first level-1 heading. *)
Lemma parse_spec (L : Labels) (ast : list node) :
  wf_ast ast = true ->
  match find (is_h 1) ast with
  | Some h => exists r, parse L ast = Ok r /\ title r = _extract_text h
  | None => parse L ast = Raise MissingTitleError
  end.
Proof.
  intros Hwf. unfold parse.
  rewrite extract_title_find by now apply wf_ast_heading_ok.
  destruct (find (is_h 1) ast) as [h|]; [|reflexivity].
  destruct (extract_sections_spec ast Hwf) as [m [Hm _]].
  simpl. rewrite Hm. simpl. rewrite extract_options_ok. simpl.
  eexists. split; reflexivity.
Qed.

Lemma stripped_of_no_raw (n : node) :
  raw n = None -> strip (_extract_text n) = _extract_text n.
Proof.
  intros Hraw. destruct (no_children n) eqn:E.
  - rewrite extract_text_leaf by assumption.
    unfold raw_or_empty. now rewrite Hraw.
  - now apply extract_text_stripped.
Qed.

Lemma all_items_filter (nodes : list node) :
  all_items (filter is_list nodes) = all_items nodes.
Proof.
  induction nodes as [|n rest IH]; [reflexivity|].
  simpl. destruct (is_list n) eqn:E; simpl; rewrite ?E, IH; reflexivity.
Qed.

Lemma all_items_no_list (nodes : list node) :
  existsb is_list nodes = false -> all_items nodes = [].
Proof.
  induction nodes as [|n rest IH]; [reflexivity|].
  simpl. intros H. apply orb_false_iff in H as [Hn Hrest].
  rewrite Hn. now apply IH.
Qed.

Lemma all_items_has_items (nodes : list node) :
  existsb has_items nodes = true -> all_items nodes <> [].
Proof.
  induction nodes as [|n rest IH]; [discriminate|].
  simpl. intros H. apply orb_true_iff in H as [Hn|Hrest].
  - unfold has_items in Hn. apply andb_true_iff in Hn as [Hl Hc].
    rewrite Hl. unfold children_or_empty.
    destruct (children n) as [[|c cs]|]; try discriminate.
  - intros E. apply app_eq_nil in E as [_ E]. now apply IH.
Qed.

Lemma list_ok_filter (nodes : list node) :
  forallb list_ok nodes = true -> forallb list_ok (filter is_list nodes) = true.
Proof.
  rewrite !forallb_forall. intros H x Hx.
  apply filter_In in Hx as [Hx _]. now apply H.
Qed.

(* ===================================================================== *)
(** ** Properties of the parser *)
(* ===================================================================== *)

(** C1. On the AST of any document, [parse] raises the missing-title
    error when no top-level node is a level-1 heading and returns a record
    when one is; it raises nothing else; a section that is missing reads as
    the empty string or as an absent list. *)
Theorem C1_missing_title_only_failure (L : Labels) (ast : list node) :
  wf_ast ast = true ->
  (has_title ast = false -> parse L ast = Raise MissingTitleError)
  /\ (has_title ast = true -> exists r, parse L ast = Ok r)
  /\ (forall e, parse L ast = Raise e ->
                e = MissingTitleError /\ has_title ast = false)
  /\ (forall (sections : SectionsMap) (key : string),
        Dict.get sections key = None ->
        _get_str sections key = "" /\ _get_list sections key = None).
Proof.
  intros Hwf. pose proof (parse_spec L ast Hwf) as Hp.
  unfold has_title. repeat split.
  - intros Hno. now rewrite (find_none_existsb _ _ Hno) in Hp.
  - intros Hyes. destruct (find_some_existsb _ _ Hyes) as [h Hh].
    rewrite Hh in Hp. destruct Hp as [r [Hr _]]. now exists r.
  - destruct (find (is_h 1) ast); [destruct Hp as [r [Hr _]]|]; congruence.
  - destruct (existsb (is_h 1) ast) eqn:Hyes; [|reflexivity].
    destruct (find_some_existsb _ _ Hyes) as [h Hh].
    rewrite Hh in Hp. destruct Hp as [r [Hr _]]. congruence.
  - unfold _get_str. now rewrite H.
  - unfold _get_list. now rewrite H.
Qed.

Lemma C1_witness :
  (exists r, parse madr_labels Sample.markdown = Ok r)
  /\ parse madr_labels [Md.h 2 "Decision Outcome"; Md.paragraph [Md.text "none"]]
     = Raise MissingTitleError.
Proof.
  split.
  - apply (C1_missing_title_only_failure madr_labels Sample.markdown);
      vm_compute; reflexivity.
  - apply (C1_missing_title_only_failure madr_labels
             [Md.h 2 "Decision Outcome"; Md.paragraph [Md.text "none"]]);
      vm_compute; reflexivity.
Defined.

(** C2. The title of the record is the text of the first level-1 heading
    among the top-level nodes, whatever stands before or after it; that
    text carries no surrounding whitespace when the heading, as the
    Markdown library builds it, has no raw string of its own. *)
Theorem C2_title_is_first_level1_heading
    (L : Labels) (pre : list node) (h : node) (post : list node) :
  wf_ast (pre ++ h :: post) = true ->
  forallb (fun n => negb (is_h 1 n)) pre = true ->
  is_h 1 h = true ->
  exists r, parse L (pre ++ h :: post) = Ok r
            /\ title r = _extract_text h
            /\ (raw h = None -> strip (title r) = title r).
Proof.
  intros Hwf Hpre Hh.
  pose proof (parse_spec L _ Hwf) as Hp.
  rewrite (@find_first node (is_h 1) pre h post Hpre Hh) in Hp.
  destruct Hp as [r [Hr Ht]]. exists r. repeat split; try assumption.
  intros Hraw. rewrite Ht. now apply stripped_of_no_raw.
Qed.

Lemma C2_witness :
  exists r,
    parse madr_labels
      ([Md.paragraph [Md.text "draft"]; Md.h 2 "Decision Outcome"]
       ++ Md.h 1 "  Use AssertJ " :: [Md.h 1 "Second title"])
    = Ok r
    /\ title r = "Use AssertJ".
Proof.
  destruct (@C2_title_is_first_level1_heading madr_labels
              [Md.paragraph [Md.text "draft"]; Md.h 2 "Decision Outcome"]
              (Md.h 1 "  Use AssertJ ") [Md.h 1 "Second title"]
              eq_refl eq_refl eq_refl) as [r [Hr [Ht _]]].
  exists r. split; [exact Hr | exact Ht].
Defined.

(** C3, as the code has it. The value of a bucket whose nodes are well
    formed. When a list node of the bucket has an item, the value is a
    list: for every item of every list node, in order, the non-empty texts
    of the blocks of the item joined by a newline and stripped; the nodes
    that are no lists do not count. When the bucket has no list node, the
    value is a text: the non-empty texts of its nodes joined by a newline
    and stripped. The empty bucket gives the empty text. For an item of
    one block the string is what the text helper gives for the item. *)
Theorem C3_bucket_value (bucket : list node) :
  forallb list_ok bucket = true ->
  (existsb has_items bucket = true ->
     normalize_bucket bucket
     = Ok (Items
             (flat_map
                (fun n =>
                   if is_list n then
                     map (fun item =>
                            strip (join newline
                                     (filter truthy
                                        (map _extract_text
                                             (children_or_empty item)))))
                         (children_or_empty n)
                   else [])
                bucket))
     /\ normalize_bucket (filter is_list bucket) = normalize_bucket bucket)
  /\ (existsb is_list bucket = false ->
        normalize_bucket bucket
        = Ok (Text (strip (join newline
                             (filter truthy (map _extract_text bucket))))))
  /\ normalize_bucket [] = Ok (Text "")
  /\ (forall item c, children item = Some [c] ->
        strip (join newline
                 (filter truthy (map _extract_text (children_or_empty item))))
        = _extract_text item).
Proof.
  intros Hok.
  split; [|split; [|split; [reflexivity | exact item_text_one_block]]].
  - intros Hex. apply all_items_has_items in Hex.
    rewrite !normalize_bucket_ok by (try apply list_ok_filter; assumption).
    unfold section_value. rewrite all_items_filter.
    destruct (all_items bucket) eqn:E; [contradiction|].
    rewrite <- E. split; reflexivity.
  - intros Hno. rewrite normalize_bucket_ok by assumption.
    unfold section_value. now rewrite all_items_no_list.
Qed.

Lemma C3_witness :
  normalize_bucket
    [Md.paragraph [Md.text "Chosen option"]; Md.bullets ["a"; "b"];
     Md.h 3 "Consequences"; Md.bullets ["c"]]
  = Ok (Items ["a"; "b"; "c"])
  /\ normalize_bucket
       [Md.paragraph [Md.text " one "]; Md.blank_line; Md.paragraph [Md.text "two"]]
     = Ok (Text (String.concat newline ["one"; "two"])).
Proof.
  split.
  - apply (C3_bucket_value
             [Md.paragraph [Md.text "Chosen option"]; Md.bullets ["a"; "b"];
              Md.h 3 "Consequences"; Md.bullets ["c"]]); reflexivity.
  - apply (C3_bucket_value
             [Md.paragraph [Md.text " one "]; Md.blank_line;
              Md.paragraph [Md.text "two"]]); reflexivity.
Defined.

(** C3, as stated, fails: a list item with two blocks, here a text and a
    nested list, is not flattened by the text helper, which would
    concatenate the texts of the blocks; the blocks are joined by a
    newline. *)
Lemma C3_counterexample :
  normalize_bucket
    [Md.md_list [Md.list_item [Md.block_text [Md.text "Parent"];
                               Md.bullets ["Child"]]]]
  = Ok (Items [join newline ["Parent"; "Child"]])
  /\ flattened_items
       [Md.md_list [Md.list_item [Md.block_text [Md.text "Parent"];
                                  Md.bullets ["Child"]]]]
     = ["ParentChild"]
  /\ ~ (forall bucket,
          forallb list_ok bucket = true ->
          existsb has_items bucket = true ->
          normalize_bucket bucket = Ok (Items (flattened_items bucket))).
Proof.
  split; [reflexivity|]. split; [reflexivity|].
  intros H.
  specialize (H [Md.md_list [Md.list_item [Md.block_text [Md.text "Parent"];
                                           Md.bullets ["Child"]]]]
                eq_refl eq_refl).
  vm_compute in H. discriminate.
Qed.

(** C4, as the code has it. The text helper gives a childless node its raw
    string, unstripped, and a node with children the concatenation of the
    texts of its children, stripped; it strips at every level that has
    children, so its result there is always stripped. It agrees with the
    depth-first concatenation of the leaves stripped once, at the top,
    whenever no inner node has a text with surrounding whitespace. *)
Theorem C4_text_strips_at_every_level (n : node) :
  (no_children n = true -> _extract_text n = raw_or_empty n)
  /\ (forall c cs, children n = Some (c :: cs) ->
        _extract_text n = strip (join "" (map _extract_text (c :: cs))))
  /\ (no_children n = false -> strip (_extract_text n) = _extract_text n)
  /\ (inner_trimmed n = true -> _extract_text n = flatten_top_only n).
Proof.
  split; [apply extract_text_leaf|].
  split; [intros c cs; apply extract_text_kids|].
  split; [apply extract_text_stripped|].
  intros Hin. unfold flatten_top_only.
  destruct (no_children n) eqn:E; [now apply extract_text_leaf|].
  destruct n as [t lv [[|c cs]|] r]; try discriminate.
  change (strip (join "" (map _extract_text (c :: cs)))
          = strip (join "" (map leaf_text (c :: cs)))).
  f_equal. f_equal. apply map_ext_in. intros x Hx.
  simpl in Hin.
  change (forallb (fun c0 => (no_children c0 || trimmed (leaf_text c0))
                             && inner_trimmed c0) (c :: cs) = true) in Hin.
  rewrite forallb_forall in Hin. specialize (Hin x Hx).
  apply andb_true_iff in Hin as [H1 H2].
  now apply extract_text_leaf_text.
Qed.

Lemma C4_witness :
  _extract_text (Md.paragraph [Md.text " see "; Md.link [Md.text "the docs"]])
  = "see the docs"
  /\ _extract_text (Md.text " raw ") = " raw ".
Proof.
  split.
  - apply (C4_text_strips_at_every_level
             (Md.paragraph [Md.text " see "; Md.link [Md.text "the docs"]])).
    reflexivity.
  - apply (C4_text_strips_at_every_level (Md.text " raw ")). reflexivity.
Defined.

(** C4, as stated, fails: a link whose text ends in a space, followed by
    more text, loses the space, because the helper strips the text of the
    link before it concatenates. *)
Lemma C4_counterexample :
  _extract_text (Md.paragraph [Md.link [Md.text "foo "]; Md.text "bar"])
  = "foobar"
  /\ flatten_top_only (Md.paragraph [Md.link [Md.text "foo "]; Md.text "bar"])
     = "foo bar"
  /\ ~ (forall n, _extract_text n = flatten_top_only n).
Proof.
  split; [reflexivity|]. split; [reflexivity|].
  intros H.
  specialize (H (Md.paragraph [Md.link [Md.text "foo "]; Md.text "bar"])).
  vm_compute in H. discriminate.
Qed.

Lemma parse_fields (L : Labels) (ast : list node) (r : MADRParser) :
  parse L ast = Ok r ->
  exists m,
    _extract_sections ast = Ok m
    /\ section_fields r
       = (_get_str m (CONTEXT_LABEL L), _get_str m (DECISION_OUTCOME_LABEL L),
          _get_list m (DECISION_DRIVERS_LABEL L),
          _get_list m (CONSIDERED_OPTIONS_LABEL L),
          Some (_get_str m (DECISION_CONSEQUENCES_LABEL L)),
          _get_list m (DECISION_CONFIRMATION_LABEL L),
          Some (_get_str m (MORE_INFO_LABEL L))).
Proof.
  unfold parse.
  destruct (_extract_title ast) as [ti|]; simpl; [|discriminate].
  destruct (_extract_sections ast) as [m|]; simpl; [|discriminate].
  destruct (_extract_options_pros_and_cons L ast) as [o|]; simpl; [|discriminate].
  intros [= <-]. exists m. split; reflexivity.
Qed.

(** Whatever the label constants are, the sections of the sample
    document bear the texts of its four level-2 headings: the consequences
    read as the empty string unless their label is one of those texts. *)
Lemma sample_consequences_any_label (L : Labels) (r : MADRParser) :
  ~ In (DECISION_CONSEQUENCES_LABEL L)
       ["Context and Problem Statement"; "Considered Options";
        "Decision Outcome"; "Pros and Cons of the Options"] ->
  parse L Sample.markdown = Ok r ->
  decision_consequences r = Some "".
Proof.
  intros Hnot Hr.
  destruct (parse_fields _ _ Hr) as [m [Hm Hf]].
  unfold section_fields in Hf. injection Hf as _ _ _ _ Hc _ _.
  rewrite Hc. f_equal. unfold _get_str.
  assert (Hkeys : Dict.keys m
                  = ["Context and Problem Statement"; "Considered Options";
                     "Decision Outcome"; "Pros and Cons of the Options"]).
  { vm_compute in Hm. injection Hm as <-. reflexivity. }
  rewrite <- Hkeys in Hnot. apply DictFacts.get_none_not_in in Hnot.
  now rewrite Hnot.
Qed.

(** C8, as the code has it. On the sample document the title, the
    considered options and the bullets of Hamcrest are as expected. The
    level-3 heading Consequences and its list stay in the bucket of
    Decision Outcome, whose value is that list: the outcome reads as the
    two bullets joined by a newline, and the consequences, looked up as a
    section of their own, read as the empty string. *)
Theorem C8_sample_document :
  exists r d,
    parse madr_labels Sample.markdown = Ok r
    /\ title r = "Use Plain JUnit5 for advanced test assertions"
    /\ considered_options r = Some ["Plain JUnit5"; "Hamcrest"; "AssertJ"]
    /\ decision_outcome r
       = join newline [Sample.good_readable; Sample.good_easy]
    /\ decision_consequences r = Some ""
    /\ options_pros_and_cons r = Some d
    /\ Dict.get d "Hamcrest" = Some [Sample.good_matchers; Sample.bad_fluent].
Proof.
  eexists. eexists.
  split; [vm_compute; reflexivity|].
  repeat split; reflexivity.
Qed.

(** C8, as stated, fails: the consequences of the sample document are not
    its two bullets (joined by a newline, as the string getter joins a
    list). *)
Lemma C8_counterexample :
  ~ (exists r d,
       parse madr_labels Sample.markdown = Ok r
       /\ title r = "Use Plain JUnit5 for advanced test assertions"
       /\ considered_options r = Some ["Plain JUnit5"; "Hamcrest"; "AssertJ"]
       /\ decision_consequences r
          = Some (join newline [Sample.good_readable; Sample.good_easy])
       /\ options_pros_and_cons r = Some d
       /\ Dict.get d "Hamcrest" = Some [Sample.good_matchers; Sample.bad_fluent]).
Proof.
  intros [r [d [Hr [_ [_ [Hc _]]]]]].
  vm_compute in Hr. injection Hr as <-.
  vm_compute in Hc. discriminate.
Qed.

(* ===================================================================== *)
(** ** The pros and cons section *)
(* ===================================================================== *)

Section ProsAndCons.
Variable L : Labels.

Lemma is_h3_not_h2 (n : node) : is_h 3 n = true -> is_h 2 n = false.
Proof.
  unfold is_h, level_is. destruct (is_heading n); [|discriminate].
  destruct (level n) as [l|]; [|discriminate]. simpl.
  intros H. apply Z.eqb_eq in H. subst. reflexivity.
Qed.

Lemma pc_run_enter (pre : list node) (P : node) (l : list node) :
  existsb (is_pros L) pre = false ->
  is_pros L P = true ->
  pc_run L pc_init (pre ++ P :: l) = pc_run L pc_entered l.
Proof.
  intros Hpre HP. rewrite pc_run_app.
  destruct (pc_run_outside L pre pc_init eq_refl Hpre) as [s0 [Hrun [Hout Hres]]].
  rewrite Hrun. simpl. unfold pc_next.
  unfold is_pros in HP. apply andb_true_iff in HP as [H2 Ht].
  rewrite H2, Ht, Hout, Hres. reflexivity.
Qed.

Lemma pc_at_option_mem (st : pc_state) (h : node) :
  Dict.mem (pc_result (pc_at_option st h)) (_extract_text h) = true.
Proof.
  simpl. destruct (Dict.mem (pc_result st) (_extract_text h)) eqn:M;
    [exact M | apply DictFacts.mem_set_eq].
Qed.

Lemma pc_run_reach_option (st : pc_state) (b1 : list node) (h : node)
      (tail : list node) :
  in_section st = true ->
  forallb (fun n => negb (is_h 2 n)) b1 = true ->
  is_h 3 h = true ->
  exists s2,
    pc_run L st b1 = Continue s2
    /\ in_section s2 = true
    /\ pc_run L st (b1 ++ h :: tail) = pc_run L (pc_at_option s2 h) tail.
Proof.
  intros Hin Hb1 Hh.
  destruct (pc_run_no_h2 L b1 st Hb1) as [s2 [Hrun Hs2]].
  exists s2. rewrite Hs2, Hin. repeat split; try assumption.
  rewrite pc_run_app, Hrun. simpl. unfold pc_next, pc_at_option.
  rewrite (is_h3_not_h2 h Hh), Hh, Hs2, Hin. reflexivity.
Qed.
End ProsAndCons.

Lemma get_or_nil_set (d : Dict.t (list string)) (k k' : string)
      (v : list string) :
  get_or_nil (Dict.set d k v) k'
  = if (k =? k')%string then v else get_or_nil d k'.
Proof.
  unfold get_or_nil. destruct (String.eqb_spec k k') as [->|Hne].
  - now rewrite DictFacts.get_set_eq.
  - now rewrite DictFacts.get_set_ne.
Qed.

(** Inside the section, over a run of nodes without level-2 headings, the
    loop appends to the bullets of [t] those that stand under the headings
    of that name. *)
Lemma pc_run_bullets_under (L : Labels) (t : string) (body : list node) :
  forall st,
  in_section st = true ->
  forallb (fun n => negb (is_h 2 n)) body = true ->
  exists st',
    pc_run L st body = Continue st'
    /\ in_section st' = true
    /\ get_or_nil (pc_result st') t
       = get_or_nil (pc_result st) t ++ bullets_under t (collecting t st) body.
Proof.
  induction body as [|n body IH]; intros st Hin Hbody.
  - exists st. simpl. now rewrite app_nil_r.
  - simpl in Hbody. apply andb_true_iff in Hbody as [H2 Hbody].
    apply negb_true_iff in H2.
    simpl. unfold pc_next. rewrite H2, Hin. simpl.
    destruct (is_h 3 n) eqn:E3.
    + destruct (IH {| in_section := true;
                      current_option := Some (_extract_text n);
                      pc_result :=
                        if Dict.mem (pc_result st) (_extract_text n)
                        then pc_result st
                        else Dict.set (pc_result st) (_extract_text n) [] |}
                   eq_refl Hbody) as [st' [Hrun [Hin' Hget]]].
      exists st'. split; [exact Hrun|]. split; [exact Hin'|].
      rewrite Hget. cbn [pc_result]. f_equal.
      * unfold Dict.mem.
        destruct (Dict.get (pc_result st) (_extract_text n)) as [l|] eqn:G;
          [reflexivity|].
        rewrite get_or_nil_set.
        destruct (String.eqb_spec (_extract_text n) t) as [<-|Hne];
          [|reflexivity].
        unfold get_or_nil. now rewrite G.
      * f_equal. unfold collecting. simpl.
        destruct (String.eqb_spec (_extract_text n) t) as [<-|Hne].
        -- destruct (truthy (_extract_text n)); [|reflexivity].
           now rewrite String.eqb_refl.
        -- destruct (truthy (_extract_text n)); [|reflexivity].
           now apply String.eqb_neq.
    + assert (Hc : in_section (pc_collect_next st n) = true
                   /\ collecting t (pc_collect_next st n) = collecting t st
                   /\ get_or_nil (pc_result (pc_collect_next st n)) t
                      = get_or_nil (pc_result st) t
                        ++ (if collecting t st && is_list n then bullets_of n
                            else [])).
      { unfold pc_collect_next, collecting.
        destruct (active (current_option st)) as [opt|] eqn:A.
        - rewrite Hin. simpl. destruct (is_list n); simpl.
          + rewrite A, get_or_nil_set, andb_true_r.
            repeat split.
            destruct (String.eqb_spec opt t) as [->|Hne];
              [reflexivity | now rewrite app_nil_r].
          + rewrite A, andb_false_r, app_nil_r. repeat split. exact Hin.
        - rewrite A, app_nil_r. repeat split. exact Hin. }
      destruct Hc as [Hin1 [Hcol Hget1]].
      destruct (IH (pc_collect_next st n) Hin1 Hbody)
        as [st' [Hrun [Hin' Hget]]].
      exists st'. split; [exact Hrun|]. split; [exact Hin'|].
      rewrite Hget, Hget1, Hcol, <- app_assoc. f_equal.
      now destruct (collecting t st && is_list n).
Qed.

Lemma seg_bullets_cons (n : node) (seg : list node) :
  seg_bullets (n :: seg)
  = (if is_list n then bullets_of n else []) ++ seg_bullets seg.
Proof. reflexivity. Qed.

(** When no heading named [t] is followed by a bullet, nothing stands
    under the headings of that name. *)
Lemma bullets_under_zero (t : string) (body : list node) : forall cur,
  (cur = true ->
   forall seg rest, body = seg ++ rest ->
                    forallb (fun n => negb (is_h 3 n)) seg = true ->
                    seg_bullets seg = []) ->
  zero_bullets t body ->
  bullets_under t cur body = [].
Proof.
  induction body as [|n body IH]; intros cur Hcur Hzero; [reflexivity|].
  assert (Hzero' : zero_bullets t body).
  { intros b1 h' seg rest -> Hh' Hseg.
    now apply (Hzero (n :: b1) h' seg rest). }
  simpl. destruct (is_h 3 n) eqn:E3.
  - apply IH; [|exact Hzero'].
    intros Hc seg rest -> Hseg. apply andb_true_iff in Hc as [Hc _].
    apply (Hzero [] n seg rest); [reflexivity| |exact Hseg].
    unfold is_h_named. now rewrite E3, Hc.
  - assert (Hcur' : cur = true ->
              forall seg rest, body = seg ++ rest ->
                forallb (fun n0 => negb (is_h 3 n0)) seg = true ->
                seg_bullets seg = []).
    { intros Hc seg rest -> Hseg.
      assert (H : seg_bullets (n :: seg) = []).
      { apply (Hcur Hc (n :: seg) rest); [reflexivity|].
        simpl. now rewrite E3. }
      rewrite seg_bullets_cons in H. now apply app_eq_nil in H. }
    rewrite (IH cur Hcur' Hzero').
    destruct cur; simpl; [|reflexivity].
    destruct (is_list n) eqn:El; [|reflexivity].
    assert (H : seg_bullets [n] = []).
    { apply (Hcur eq_refl [n] body); [reflexivity|]. simpl. now rewrite E3. }
    rewrite seg_bullets_cons, El in H. simpl in H.
    rewrite app_nil_r in H. now rewrite H.
Qed.

(** For a name that is not empty the converse holds: it tells how to
    check [zero_bullets] on a given document. *)
Lemma bullets_under_run (t : string) (seg rest : list node) :
  forallb (fun n => negb (is_h 3 n)) seg = true ->
  bullets_under t true (seg ++ rest) = [] ->
  seg_bullets seg = [].
Proof.
  induction seg as [|n seg IH]; intros Hseg H; [reflexivity|].
  simpl in Hseg. apply andb_true_iff in Hseg as [Hn Hseg].
  apply negb_true_iff in Hn. simpl in H. rewrite Hn in H.
  rewrite seg_bullets_cons. simpl in H.
  destruct (is_list n).
  - apply app_eq_nil in H as [H1 H2]. rewrite H1. now apply IH.
  - now apply IH.
Qed.

Lemma zero_bullets_of_bullets_under (t : string) (body : list node) :
  truthy t = true ->
  forall cur, bullets_under t cur body = [] -> zero_bullets t body.
Proof.
  intros Ht. induction body as [|n body IH]; intros cur H b1 h' seg rest Heq Hh' Hseg.
  - destruct b1; discriminate.
  - simpl in H. destruct b1 as [|x b1]; simpl in Heq; injection Heq as -> ->.
    + unfold is_h_named in Hh'. apply andb_true_iff in Hh' as [E3 Et].
      rewrite E3, Et, Ht in H. simpl in H.
      now apply (bullets_under_run t seg rest).
    + destruct (is_h 3 x).
      * now apply (IH _ H b1 h' seg rest).
      * destruct (cur && is_list x).
        -- apply app_eq_nil in H as [_ H]. now apply (IH _ H b1 h' seg rest).
        -- now apply (IH _ H b1 h' seg rest).
Qed.




(** C6. The extractor raises nothing; it returns the mapping its loop
    built when that mapping has a key and [None] when it has none, never
    an empty mapping; a document without the heading of the section gives
    [None]. *)
Theorem C6_options_absent_when_empty (L : Labels) (ast : list node) :
  exists c,
    pc_loop L pc_init ast = Ok c
    /\ _extract_options_pros_and_cons L ast
       = Ok (if Dict.truthy (pc_result (state_of c))
             then Some (pc_result (state_of c)) else None)
    /\ (forall d, _extract_options_pros_and_cons L ast = Ok (Some d) <->
                  d = pc_result (state_of c) /\ d <> Dict.empty)
    /\ _extract_options_pros_and_cons L ast <> Ok (Some Dict.empty)
    /\ (existsb (is_pros L) ast = false ->
        _extract_options_pros_and_cons L ast = Ok None).
Proof.
  exists (pc_run L pc_init ast).
  split; [apply pc_loop_ok, pc_init_inv|].
  rewrite extract_options_ok. cbv zeta.
  split; [reflexivity|].
  set (d0 := pc_result (state_of (pc_run L pc_init ast))).
  split; [|split].
  - clearbody d0. intros d. destruct d0 as [|kv d0']; simpl.
    + split; [discriminate | intros [-> H]; now contradiction H].
    + split.
      * intros [= <-]. split; [reflexivity | discriminate].
      * intros [-> _]. reflexivity.
  - clearbody d0. destruct d0 as [|kv d0']; simpl; intros H; discriminate.
  - intros Hno.
    destruct (pc_run_outside L ast pc_init eq_refl Hno) as [s [Hs [_ Hres]]].
    subst d0. rewrite Hs. simpl. rewrite Hres. reflexivity.
Qed.

Lemma C6_witness :
  _extract_options_pros_and_cons madr_labels
    [Md.h 1 "Title"; Md.h 2 "Considered Options"; Md.h 3 "Hamcrest";
     Md.bullets ["Good"]]
  = Ok None.
Proof.
  destruct (C6_options_absent_when_empty madr_labels
              [Md.h 1 "Title"; Md.h 2 "Considered Options"; Md.h 3 "Hamcrest";
               Md.bullets ["Good"]]) as [c [_ [_ [_ [_ H]]]]].
  apply H. reflexivity.
Defined.

(** C7. Once the loop has met the heading of the section, a level-2
    heading with another text ends it: the result is that of the document
    cut before that heading, whatever follows, a second pros and cons
    section included. *)
Theorem C7_scan_stops_after_section
    (L : Labels) (pre : list node) (h : node) (post : list node) :
  existsb (is_pros L) pre = true ->
  is_h 2 h = true ->
  _extract_text h <> PROS_AND_CONS_LABEL L ->
  _extract_options_pros_and_cons L (pre ++ h :: post)
  = _extract_options_pros_and_cons L pre.
Proof.
  intros Hpre Hh Htext. rewrite !extract_options_ok, pc_run_app.
  destruct (pc_run L pc_init pre) as [s|s] eqn:E; [|reflexivity].
  pose proof (pc_run_inside L pre pc_init (or_intror Hpre) E) as Hin.
  simpl. unfold pc_next. rewrite Hh, Hin.
  apply String.eqb_neq in Htext. rewrite Htext. reflexivity.
Qed.

Lemma C7_witness :
  _extract_options_pros_and_cons madr_labels
    ([Md.h 2 "Pros and Cons of the Options"; Md.h 3 "Hamcrest";
      Md.bullets ["Good"]]
     ++ Md.h 2 "More Information"
     :: [Md.h 2 "Pros and Cons of the Options"; Md.h 3 "AssertJ";
         Md.bullets ["Bad"]])
  = Ok (Some [("Hamcrest", ["Good"])]).
Proof.
  rewrite (@C7_scan_stops_after_section madr_labels
             [Md.h 2 "Pros and Cons of the Options"; Md.h 3 "Hamcrest";
              Md.bullets ["Good"]]
             (Md.h 2 "More Information")
             [Md.h 2 "Pros and Cons of the Options"; Md.h 3 "AssertJ";
              Md.bullets ["Bad"]]
             eq_refl eq_refl ltac:(discriminate)).
  reflexivity.
Defined.

(* ===================================================================== *)
(** ** Sections with an empty name, sections with the same name *)
(* ===================================================================== *)

Lemma split_step_sound (st st' : split_state) (n : node) :
  split_step st n = Ok st' -> st' = split_next st n.
Proof.
  unfold split_step, split_next, is_h, level_is, attrs_level.
  destruct (is_heading n), (level n) as [l|]; simpl; try congruence.
  destruct (l =? 2)%Z; congruence.
Qed.

Lemma split_loop_sound (ast : list node) : forall st st',
  split_loop st ast = Ok st' -> st' = split_run st ast.
Proof.
  induction ast as [|n rest IH]; intros st st' H; simpl in H.
  - injection H as <-. reflexivity.
  - destruct (split_step st n) as [s|e] eqn:E; simpl in H; [|discriminate].
    apply split_step_sound in E. subst s. now apply IH.
Qed.

Lemma normalize_into_absent (raw : Dict.t (list node)) : forall acc m k,
  normalize_into acc raw = Ok m ->
  Dict.get raw k = None ->
  Dict.get m k = Dict.get acc k.
Proof.
  induction raw as [|[name nodes] rest IH]; intros acc m k Hm Hk; simpl in *.
  - congruence.
  - destruct (normalize_bucket nodes) as [v|e]; simpl in Hm; [|discriminate].
    destruct (String.eqb_spec k name) as [->|Hne]; [discriminate|].
    rewrite (IH _ _ _ Hm Hk). apply DictFacts.get_set_ne. congruence.
Qed.

Lemma extract_sections_no_empty_key (ast : list node) (m : SectionsMap) :
  _extract_sections ast = Ok m -> Dict.get m "" = None.
Proof.
  unfold _extract_sections, raw_sections, _normalize_sections.
  destruct (split_loop split_init ast) as [st|e] eqn:E; simpl; [|discriminate].
  apply split_loop_sound in E. subst st. intros Hm.
  rewrite (normalize_into_absent _ _ _ Hm); [reflexivity|].
  apply flush_no_empty_key.
  apply (@split_run_inv (fun _ => True)); [apply split_init_inv|].
  apply Forall_forall. auto.
Qed.

(** After a level-2 heading without text the loop idles until the next
    level-2 heading. *)
Lemma split_loop_empty_heading (st : split_state) (h : node)
      (mid rest : list node) :
  is_h 2 h = true -> _extract_text h = "" ->
  forallb heading_ok mid = true ->
  forallb (fun n => negb (is_h 2 n)) mid = true ->
  split_loop st (h :: mid ++ rest)
  = split_loop {| sections := flush st; current_section := Some "";
                  buffer := [] |} rest.
Proof.
  intros Hh Ht Hok Hmid. simpl.
  rewrite split_step_ok by (eapply is_h_heading_ok; eassumption).
  simpl. unfold split_next. rewrite Hh, Ht.
  rewrite split_loop_app, split_loop_ok by assumption. simpl.
  now rewrite split_run_idle.
Qed.

(** The empty heading and the nodes up to the next level-2 heading can be
    taken out of the document. *)
Lemma split_loop_skip_empty (st : split_state) (h : node)
      (mid rest : list node) :
  is_h 2 h = true -> _extract_text h = "" ->
  forallb heading_ok mid = true ->
  forallb (fun n => negb (is_h 2 n)) mid = true ->
  rest = [] \/ (exists r rest', rest = r :: rest' /\ is_h 2 r = true) ->
  (st' <- split_loop st (h :: mid ++ rest) ;; Ok (flush st'))
  = (st' <- split_loop st rest ;; Ok (flush st')).
Proof.
  intros Hh Ht Hok Hmid Hrest.
  rewrite split_loop_empty_heading by assumption.
  destruct Hrest as [->|[r [rest' [-> Hr]]]]; [reflexivity|].
  simpl. rewrite !split_step_ok by (eapply is_h_heading_ok; eassumption).
  simpl. unfold split_next. rewrite Hr. reflexivity.
Qed.

(** C9. A level-2 heading whose text is empty opens no section: the empty
    string is never a key of the sections; the heading flushes the section
    before it as the end of the document does; the nodes between it and
    the next level-2 heading leave no trace, so that the heading and those
    nodes can be taken out of the document. *)
Theorem C9_empty_heading_opens_no_section
    (pre : list node) (h : node) (mid rest : list node) :
  is_h 2 h = true ->
  _extract_text h = "" ->
  forallb heading_ok mid = true ->
  forallb (fun n => negb (is_h 2 n)) mid = true ->
  (forall ast m, _extract_sections ast = Ok m -> Dict.get m "" = None)
  /\ (forall ast, wf_ast ast = true ->
        exists m, _extract_sections ast = Ok m /\ Dict.get m "" = None)
  /\ _extract_sections (pre ++ [h]) = _extract_sections pre
  /\ _extract_sections (pre ++ h :: mid ++ rest)
     = _extract_sections (pre ++ h :: rest)
  /\ (rest = [] \/ (exists r rest', rest = r :: rest' /\ is_h 2 r = true) ->
      _extract_sections (pre ++ h :: mid ++ rest)
      = _extract_sections (pre ++ rest)).
Proof.
  intros Hh Ht Hok Hmid.
  split; [exact extract_sections_no_empty_key|].
  split.
  { intros ast Hwf. destruct (extract_sections_spec ast Hwf) as [m [Hm [He _]]].
    now exists m. }
  unfold _extract_sections, raw_sections.
  rewrite !split_loop_app.
  destruct (split_loop split_init pre) as [st|e]; cbn [bind];
    [|repeat split; reflexivity].
  split; [|split].
  - change [h] with (h :: [] ++ []).
    rewrite split_loop_empty_heading by (try assumption; reflexivity).
    reflexivity.
  - rewrite split_loop_empty_heading by assumption.
    change (h :: rest) with (h :: [] ++ rest).
    rewrite (@split_loop_empty_heading st h [] rest) by (try assumption; reflexivity).
    reflexivity.
  - intros Hrest. now rewrite split_loop_skip_empty.
Qed.

Lemma C9_witness :
  _extract_sections
    ([Md.h 2 "Context and Problem Statement"; Md.paragraph [Md.text "Why"]]
     ++ Md.heading 2 [] :: [Md.paragraph [Md.text "lost"]; Md.h 3 "lost too"]
     ++ [Md.h 2 "Decision Outcome"; Md.paragraph [Md.text "AssertJ"]])
  = Ok [("Context and Problem Statement", Text "Why");
        ("Decision Outcome", Text "AssertJ")].
Proof.
  destruct (@C9_empty_heading_opens_no_section
              [Md.h 2 "Context and Problem Statement"; Md.paragraph [Md.text "Why"]]
              (Md.heading 2 [])
              [Md.paragraph [Md.text "lost"]; Md.h 3 "lost too"]
              [Md.h 2 "Decision Outcome"; Md.paragraph [Md.text "AssertJ"]]
              eq_refl eq_refl eq_refl eq_refl) as [_ [_ [_ [H _]]]].
  rewrite H. reflexivity.
Defined.

Section AgreeExcept.
Variable V : Type.
Variable t : string.
Implicit Types (d : Dict.t V).

Lemma agree_refl d : agree_except t d d.
Proof. induction d; constructor; auto. Qed.

Lemma agree_set_same d1 d2 (k : string) (v : V) :
  agree_except t d1 d2 ->
  agree_except t (Dict.set d1 k v) (Dict.set d2 k v).
Proof.
  induction 1 as [|[k1 v1] [k2 v2] d1 d2 [Hk Hv] Hrest IH]; simpl in *.
  - repeat constructor; auto.
  - subst k2. destruct (String.eqb k k1); constructor; simpl; auto.
Qed.

Lemma agree_set_t d1 d2 (v1 v2 : V) :
  agree_except t d1 d2 ->
  agree_except t (Dict.set d1 t v1) (Dict.set d2 t v2).
Proof.
  induction 1 as [|[k1 w1] [k2 w2] d1 d2 [Hk Hv] Hrest IH]; simpl in *.
  - repeat constructor; simpl; auto. congruence.
  - subst k2. destruct (String.eqb_spec t k1) as [->|Hne];
      constructor; simpl; auto. split; [reflexivity | congruence].
Qed.

Lemma agree_without_key d1 d2 :
  agree_except t d1 d2 -> ~ In t (Dict.keys d1) -> d1 = d2.
Proof.
  induction 1 as [|[k1 w1] [k2 w2] d1 d2 [Hk Hv] Hrest IH]; simpl in *.
  - reflexivity.
  - intros Hnot. subst k2. rewrite Hv, IH by tauto. reflexivity.
Qed.

Lemma agree_set_t_eq d1 d2 (v : V) :
  NoDup (Dict.keys d1) ->
  agree_except t d1 d2 -> Dict.set d1 t v = Dict.set d2 t v.
Proof.
  intros Hnd H. revert Hnd.
  induction H as [|[k1 w1] [k2 w2] d1 d2 [Hk Hv] Hrest IH]; simpl in *.
  - reflexivity.
  - intros Hnd. inversion Hnd as [|? ? Hnot Hnd']; subst.
    destruct (String.eqb_spec t k2) as [E|Hne].
    + rewrite <- E in Hnot. now rewrite (agree_without_key Hrest Hnot).
    + rewrite Hv, IH by auto. reflexivity.
Qed.
End AgreeExcept.

Section SameName.
Variable t : string.

Lemma differ_in_bucket_flush (st1 st2 : split_state) :
  differ_in_bucket t st1 st2 -> agree_except t (flush st1) (flush st2).
Proof.
  intros [Hcur [Hag [_ Hbuf]]]. unfold flush. rewrite <- Hcur.
  destruct (active (current_section st1)) as [name|] eqn:A; [|exact Hag].
  destruct Hbuf as [Hbuf|Ht].
  - rewrite Hbuf. now apply agree_set_same.
  - injection Ht as ->. now apply agree_set_t.
Qed.

Lemma differ_in_bucket_next (st1 st2 : split_state) (n : node) :
  differ_in_bucket t st1 st2 ->
  differ_in_bucket t (split_next st1 n) (split_next st2 n).
Proof.
  intros H. pose proof (differ_in_bucket_flush H) as Hflush.
  destruct H as [Hcur [Hag [Hnd Hbuf]]].
  unfold split_next. destruct (is_h 2 n).
  - repeat split; simpl; auto. now apply flush_nodup.
  - unfold keep. rewrite <- Hcur.
    destruct (active (current_section st1)) as [name|] eqn:A.
    + repeat split; simpl; auto.
      destruct Hbuf as [Hbuf|Ht]; [left; now rewrite Hbuf | right].
      now rewrite A.
    + repeat split; auto.
      destruct Hbuf as [Hbuf|Ht]; [now left | discriminate].
Qed.

Lemma differ_in_bucket_run (l : list node) : forall st1 st2,
  differ_in_bucket t st1 st2 ->
  differ_in_bucket t (split_run st1 l) (split_run st2 l).
Proof.
  induction l as [|n l IH]; intros st1 st2 H; [exact H|].
  unfold split_run in *. simpl. now apply IH, differ_in_bucket_next.
Qed.

Lemma differ_in_bucket_reopen (st1 st2 : split_state) (h' : node) :
  differ_in_bucket t st1 st2 ->
  is_h 2 h' = true -> _extract_text h' = t -> t <> "" ->
  differ_in_entry t (split_next st1 h') (split_next st2 h').
Proof.
  intros H Hh Ht Hne. pose proof (differ_in_bucket_flush H) as Hflush.
  destruct H as [Hcur [Hag [Hnd Hbuf]]].
  unfold split_next. rewrite Hh, Ht.
  repeat split; simpl; auto; [now apply flush_nodup|].
  right. split; [exact Hflush|]. now apply active_of_truthy.
Qed.

Lemma differ_in_entry_flush (st1 st2 : split_state) :
  differ_in_entry t st1 st2 -> flush st1 = flush st2.
Proof.
  intros [Hcur [Hbuf [Hnd Hsec]]]. unfold flush. rewrite <- Hcur, <- Hbuf.
  destruct Hsec as [Heq|[Hag Ht]].
  - now rewrite Heq.
  - rewrite Ht. now apply agree_set_t_eq.
Qed.

Lemma differ_in_entry_next (st1 st2 : split_state) (n : node) :
  differ_in_entry t st1 st2 ->
  differ_in_entry t (split_next st1 n) (split_next st2 n).
Proof.
  intros H. pose proof (differ_in_entry_flush H) as Hflush.
  destruct H as [Hcur [Hbuf [Hnd Hsec]]].
  unfold split_next. destruct (is_h 2 n).
  - repeat split; simpl; auto. now apply flush_nodup.
  - unfold keep. rewrite <- Hcur.
    destruct (active (current_section st1)) as [name|] eqn:A.
    + repeat split; simpl; auto; [now rewrite Hbuf|].
      destruct Hsec as [Heq|[Hag Ht]]; [now left | right].
      split; [exact Hag | now rewrite A].
    + repeat split; auto.
      destruct Hsec as [Heq|[_ Ht]]; [now left | discriminate].
Qed.

Lemma differ_in_entry_run (l : list node) : forall st1 st2,
  differ_in_entry t st1 st2 ->
  differ_in_entry t (split_run st1 l) (split_run st2 l).
Proof.
  induction l as [|n l IH]; intros st1 st2 H; [exact H|].
  unfold split_run in *. simpl. now apply IH, differ_in_entry_next.
Qed.

(** The buckets of a document do not depend on the content of a section
    that a later section of the same name follows. *)
Lemma buckets_forget_earlier
      (pre : list node) (h : node) (body body' mid : list node) (h' : node)
      (tail : list node) :
  is_h 2 h = true -> is_h 2 h' = true ->
  _extract_text h = t -> _extract_text h' = t -> t <> "" ->
  forallb (fun n => negb (is_h 2 n)) body = true ->
  forallb (fun n => negb (is_h 2 n)) body' = true ->
  flush (split_run split_init (pre ++ h :: body ++ mid ++ h' :: tail))
  = flush (split_run split_init (pre ++ h :: body' ++ mid ++ h' :: tail)).
Proof.
  intros Hh Hh' Ht Ht' Hne Hbody Hbody'.
  apply differ_in_entry_flush.
  rewrite !split_run_app.
  set (st0 := split_run split_init pre).
  change (h :: body ++ mid ++ h' :: tail)
    with ([h] ++ body ++ mid ++ [h'] ++ tail).
  change (h :: body' ++ mid ++ h' :: tail)
    with ([h] ++ body' ++ mid ++ [h'] ++ tail).
  rewrite !split_run_app.
  apply differ_in_entry_run.
  apply differ_in_bucket_reopen; try assumption.
  apply differ_in_bucket_run.
  assert (Hact : active (current_section (split_run st0 [h])) = Some t).
  { unfold split_run. simpl. unfold split_next. rewrite Hh, Ht. simpl.
    now apply active_of_truthy. }
  rewrite (split_run_fill body _ Hact Hbody),
          (split_run_fill body' _ Hact Hbody').
  repeat split; simpl; auto.
  - apply agree_refl.
  - unfold split_run. simpl. unfold split_next. rewrite Hh. simpl.
    apply flush_nodup.
    apply (@split_run_inv (fun _ => True)); [apply split_init_inv|].
    apply Forall_forall. auto.
Qed.
End SameName.

Lemma extract_sections_run (ast : list node) :
  forallb heading_ok ast = true ->
  _extract_sections ast
  = _normalize_sections (flush (split_run split_init ast)).
Proof.
  intros H. unfold _extract_sections, raw_sections.
  now rewrite split_loop_ok by assumption.
Qed.

(** The bucket of a section that no later section of the same name
    follows is stored under its name. *)
Lemma last_bucket_stored (t : string) (st : split_state) (h' : node)
      (last rest : list node) :
  is_h 2 h' = true -> _extract_text h' = t -> t <> "" ->
  forallb (fun n => negb (is_h 2 n)) last = true ->
  rest = [] \/ (exists r rest', rest = r :: rest' /\ is_h 2 r = true) ->
  forallb (fun n => negb (is_h_named 2 t n)) rest = true ->
  Dict.get (flush (split_run (split_run (split_run st [h']) last) rest)) t
  = Some last.
Proof.
  intros Hh Ht Hne Hlast Hrest Hnamed.
  assert (Hact : active (current_section (split_run st [h'])) = Some t).
  { unfold split_run. simpl. unfold split_next. rewrite Hh, Ht. simpl.
    now apply active_of_truthy. }
  rewrite (split_run_fill last _ Hact Hlast).
  assert (Hbuf : buffer (split_run st [h']) = []).
  { unfold split_run. simpl. unfold split_next. now rewrite Hh. }
  rewrite Hbuf. simpl app.
  set (s := {| sections := sections (split_run st [h']);
               current_section := current_section (split_run st [h']);
               buffer := last |}).
  assert (Hs : flush s = Dict.set (sections s) t last).
  { unfold flush. subst s. cbn [sections current_section buffer].
    now rewrite Hact. }
  destruct Hrest as [->|[r [rest' [-> Hr]]]].
  - change (split_run s []) with s. rewrite Hs. apply DictFacts.get_set_eq.
  - simpl in Hnamed. apply andb_true_iff in Hnamed as [Hr_named Hrest'].
    apply negb_true_iff in Hr_named. unfold is_h_named in Hr_named.
    rewrite Hr in Hr_named. simpl in Hr_named.
    apply String.eqb_neq in Hr_named.
    change (split_run s (r :: rest')) with (split_run (split_next s r) rest').
    unfold split_next. rewrite Hr.
    rewrite split_run_frame; cbn [sections current_section]; try assumption.
    + rewrite Hs. apply DictFacts.get_set_eq.
    + simpl. destruct (truthy (_extract_text r)); congruence.
Qed.

(** C10, as the code has it. When a level-2 section with a non-empty name
    is followed by a later section of the same name, the entry of that name
    is the value of the bucket of the last one; the sections, and with
    them the seven fields of the record that are read from the sections,
    do not depend on the content of the earlier one. *)
Theorem C10_last_same_named_section_wins
    (L : Labels) (pre : list node) (h : node) (body body' mid : list node)
    (h' : node) (last rest : list node) :
  wf_ast (pre ++ h :: body ++ mid ++ h' :: last ++ rest) = true ->
  wf_ast (pre ++ h :: body' ++ mid ++ h' :: last ++ rest) = true ->
  is_h 2 h = true -> is_h 2 h' = true ->
  _extract_text h = _extract_text h' -> _extract_text h' <> "" ->
  forallb (fun n => negb (is_h 2 n)) body = true ->
  forallb (fun n => negb (is_h 2 n)) body' = true ->
  forallb (fun n => negb (is_h 2 n)) last = true ->
  rest = [] \/ (exists r rest', rest = r :: rest' /\ is_h 2 r = true) ->
  forallb (fun n => negb (is_h_named 2 (_extract_text h') n)) rest = true ->
  exists m,
    _extract_sections (pre ++ h :: body ++ mid ++ h' :: last ++ rest) = Ok m
    /\ Dict.get m (_extract_text h') = Some (section_value last)
    /\ _extract_sections (pre ++ h :: body' ++ mid ++ h' :: last ++ rest) = Ok m
    /\ forall r r',
         parse L (pre ++ h :: body ++ mid ++ h' :: last ++ rest) = Ok r ->
         parse L (pre ++ h :: body' ++ mid ++ h' :: last ++ rest) = Ok r' ->
         section_fields r = section_fields r'.
Proof.
  intros Hwf Hwf' Hh Hh' Hsame Hne Hbody Hbody' Hlast Hrest Hnamed.
  destruct (extract_sections_spec _ Hwf) as [m [Hm [_ Hget]]].
  assert (Hm' : _extract_sections
                  (pre ++ h :: body' ++ mid ++ h' :: last ++ rest) = Ok m).
  { rewrite extract_sections_run by now apply wf_ast_heading_ok.
    rewrite <- (@buckets_forget_earlier (_extract_text h') pre h body body' mid
                  h' (last ++ rest)) by assumption || reflexivity.
    rewrite <- extract_sections_run by now apply wf_ast_heading_ok.
    exact Hm. }
  exists m. split; [exact Hm|]. split; [|split; [exact Hm'|]].
  - rewrite Hget.
    change (h :: body ++ mid ++ h' :: last ++ rest)
      with ([h] ++ body ++ mid ++ [h'] ++ last ++ rest).
    rewrite !split_run_app.
    now rewrite (@last_bucket_stored (_extract_text h')) by assumption || reflexivity.
  - intros r r' Hr Hr'.
    destruct (parse_fields _ _ Hr) as [m1 [Hm1 ->]].
    destruct (parse_fields _ _ Hr') as [m2 [Hm2 ->]].
    congruence.
Qed.

Lemma C10_witness :
  exists m,
    _extract_sections
      ([Md.h 1 "Title"]
       ++ Md.h 2 "Decision Outcome" :: [Md.paragraph [Md.text "Hamcrest"]]
       ++ [Md.h 2 "Considered Options"; Md.bullets ["Hamcrest"; "AssertJ"]]
       ++ Md.h 2 "Decision Outcome" :: [Md.paragraph [Md.text "AssertJ"]]
       ++ [Md.h 2 "More Information"; Md.paragraph [Md.text "none"]])
    = Ok m
    /\ Dict.get m "Decision Outcome" = Some (Text "AssertJ").
Proof.
  destruct (@C10_last_same_named_section_wins madr_labels
              [Md.h 1 "Title"] (Md.h 2 "Decision Outcome")
              [Md.paragraph [Md.text "Hamcrest"]] []
              [Md.h 2 "Considered Options"; Md.bullets ["Hamcrest"; "AssertJ"]]
              (Md.h 2 "Decision Outcome") [Md.paragraph [Md.text "AssertJ"]]
              [Md.h 2 "More Information"; Md.paragraph [Md.text "none"]]
              eq_refl eq_refl eq_refl eq_refl eq_refl ltac:(discriminate)
              eq_refl eq_refl eq_refl
              (or_intror (ex_intro _ (Md.h 2 "More Information")
                            (ex_intro _ [Md.paragraph [Md.text "none"]]
                                      (conj eq_refl eq_refl))))
              eq_refl) as [m [Hm [Hget _]]].
  exists m. split; [exact Hm | exact Hget].
Defined.

(** C10, as stated, fails: the content of the first of two pros and cons
    sections shows in the options of the record, which the second scan of
    the document fills. *)
Lemma C10_counterexample : ~ earlier_section_never_shows madr_labels.
Proof.
  intros H.
  eassert (E1 : parse madr_labels
                  ([Md.h 1 "Title"]
                   ++ Md.h 2 "Pros and Cons of the Options"
                   :: [Md.h 3 "Hamcrest"; Md.bullets ["Good"]] ++ []
                   ++ Md.h 2 "Pros and Cons of the Options" :: []) = Ok _)
    by (vm_compute; reflexivity).
  eassert (E2 : parse madr_labels
                  ([Md.h 1 "Title"]
                   ++ Md.h 2 "Pros and Cons of the Options"
                   :: [] ++ []
                   ++ Md.h 2 "Pros and Cons of the Options" :: []) = Ok _)
    by (vm_compute; reflexivity).
  specialize (H [Md.h 1 "Title"] (Md.h 2 "Pros and Cons of the Options")
                [Md.h 3 "Hamcrest"; Md.bullets ["Good"]] [] []
                (Md.h 2 "Pros and Cons of the Options") [] _ _
                eq_refl eq_refl eq_refl eq_refl eq_refl E1 E2).
  discriminate H.
Qed.

(* ===================================================================== *)
(** ** Further properties: the loops in closed form *)
(* ===================================================================== *)

(** The loops of [_extract_list] raise exactly when a list node, or one
    of its items, has no children. *)
Lemma list_items_cases (items : list node) :
  list_items items
  = if forallb has_children_key items then Ok (map item_text items)
    else Raise KeyError_children.
Proof.
  induction items as [|item rest IH]; [reflexivity|].
  simpl. rewrite IH. unfold get_children.
  destruct (children item) as [cs|] eqn:E.
  - assert (Hk : has_children_key item = true)
      by (unfold has_children_key; now rewrite E).
    assert (Ht : item_text item = _extract_nodes_text cs)
      by (unfold item_text, children_or_empty; now rewrite E).
    rewrite Hk, Ht. simpl.
    now destruct (forallb has_children_key rest).
  - assert (Hk : has_children_key item = false)
      by (unfold has_children_key; now rewrite E).
    rewrite Hk. reflexivity.
Qed.

Lemma collect_items_cases (nodes : list node) :
  collect_items nodes
  = if forallb list_ok nodes then Ok (all_items nodes)
    else Raise KeyError_children.
Proof.
  induction nodes as [|n rest IH]; [reflexivity|].
  simpl. rewrite IH.
  assert (Hok : list_ok n
                = negb (is_list n)
                  || match children n with
                     | Some items => forallb has_children_key items
                     | None => false
                     end).
  { unfold list_ok, has_children_key, children_or_empty.
    now destruct (children n). }
  rewrite Hok. unfold get_children, children_or_empty.
  destruct (is_list n); simpl; [|reflexivity].
  destruct (children n) as [items|]; simpl; [|reflexivity].
  rewrite list_items_cases.
  destruct (forallb has_children_key items); simpl; [|reflexivity].
  now destruct (forallb list_ok rest).
Qed.

Lemma normalize_bucket_cases (nodes : list node) :
  normalize_bucket nodes
  = if forallb list_ok nodes then Ok (section_value nodes)
    else Raise KeyError_children.
Proof.
  unfold normalize_bucket, _extract_list, section_value.
  rewrite collect_items_cases.
  destruct (forallb list_ok nodes); simpl; [|reflexivity].
  now destruct (all_items nodes).
Qed.



Lemma sections_without_h2 (ast : list node) :
  forallb heading_ok ast = true ->
  forallb (fun n => negb (is_h 2 n)) ast = true ->
  _extract_sections ast = Ok Dict.empty.
Proof.
  intros Hok Hno. rewrite extract_sections_run by assumption.
  now rewrite split_run_idle.
Qed.

(** X3. What stands before the first level-2 heading does not reach the
    sections: the document without it has the same sections. *)
Theorem X3_preamble_is_dropped (pre rest : list node) :
  forallb heading_ok pre = true ->
  forallb (fun n => negb (is_h 2 n)) pre = true ->
  _extract_sections (pre ++ rest) = _extract_sections rest.
Proof.
  intros Hok Hpre. unfold _extract_sections, raw_sections.
  rewrite split_loop_app, split_loop_ok by assumption. simpl.
  now rewrite split_run_idle.
Qed.

Lemma X3_witness :
  _extract_sections
    ([Md.paragraph [Md.text "Status: accepted"]; Md.h 1 "Title";
      Md.bullets ["not an option"]]
     ++ [Md.h 2 "Decision Outcome"; Md.paragraph [Md.text "AssertJ"]])
  = Ok [("Decision Outcome", Text "AssertJ")].
Proof.
  rewrite (@X3_preamble_is_dropped
             [Md.paragraph [Md.text "Status: accepted"]; Md.h 1 "Title";
              Md.bullets ["not an option"]]
             [Md.h 2 "Decision Outcome"; Md.paragraph [Md.text "AssertJ"]]
             eq_refl eq_refl).
  reflexivity.
Defined.

Lemma no_h2_no_pros (L : Labels) (ast : list node) :
  forallb (fun n => negb (is_h 2 n)) ast = true ->
  existsb (is_pros L) ast = false.
Proof.
  induction ast as [|n rest IH]; [reflexivity|].
  simpl. intros H. apply andb_true_iff in H as [Hn Hrest].
  apply negb_true_iff in Hn. unfold is_pros. rewrite Hn. simpl.
  now apply IH.
Qed.

(** X2. A well-formed document with a title and no level-2 heading gives
    a record whose every other field has its default: the two required
    strings are empty, the optional strings are empty too (not absent),
    the optional lists and the options are absent. *)
Theorem X2_document_without_sections (L : Labels) (ast : list node) :
  wf_ast ast = true ->
  has_title ast = true ->
  forallb (fun n => negb (is_h 2 n)) ast = true ->
  exists r,
    parse L ast = Ok r
    /\ context r = "" /\ decision_outcome r = ""
    /\ decision_drivers r = None /\ considered_options r = None
    /\ decision_consequences r = Some "" /\ decision_confirmation r = None
    /\ options_pros_and_cons r = None /\ more_info r = Some "".
Proof.
  intros Hwf Ht Hno. unfold parse.
  rewrite extract_title_find by now apply wf_ast_heading_ok.
  destruct (find_some_existsb _ _ Ht) as [h Hh]. rewrite Hh. simpl.
  rewrite sections_without_h2 by (try apply wf_ast_heading_ok; assumption).
  simpl. rewrite extract_options_ok.
  destruct (pc_run_outside L ast pc_init eq_refl (no_h2_no_pros L ast Hno))
    as [s [Hs [_ Hres]]].
  rewrite Hs. simpl. rewrite Hres. simpl.
  eexists. repeat split.
Qed.

Lemma X2_witness :
  exists r,
    parse madr_labels [Md.h 1 "Title"; Md.paragraph [Md.text "Nothing yet"]]
    = Ok r
    /\ decision_drivers r = None /\ more_info r = Some "".
Proof.
  destruct (@X2_document_without_sections madr_labels
              [Md.h 1 "Title"; Md.paragraph [Md.text "Nothing yet"]]
              eq_refl eq_refl eq_refl)
    as [r [Hr [_ [_ [Hd [_ [_ [_ [_ Hm]]]]]]]]].
  exists r. repeat split; assumption.
Defined.

(* ===================================================================== *)
(** ** Further properties: the sections *)
(* ===================================================================== *)

Lemma mem_set_inv (V : Type) (d : Dict.t V) (k k' : string) (v : V) :
  Dict.mem (Dict.set d k v) k' = true -> k = k' \/ Dict.mem d k' = true.
Proof.
  intros H. destruct (String.eqb_spec k k') as [E|Hne]; [now left|].
  right. now rewrite DictFacts.mem_set_ne in H.
Qed.

Lemma flush_mem_inv (st : split_state) (k : string) :
  Dict.mem (flush st) k = true ->
  active (current_section st) = Some k \/ Dict.mem (sections st) k = true.
Proof.
  unfold flush.
  destruct (active (current_section st)) as [name|]; [|now right].
  intros H. apply mem_set_inv in H as [->|H]; [now left | now right].
Qed.

Lemma flush_mem (st : split_state) (k : string) :
  active (current_section st) = Some k \/ Dict.mem (sections st) k = true ->
  Dict.mem (flush st) k = true.
Proof.
  unfold flush. intros [H|H].
  - rewrite H. apply DictFacts.mem_set_eq.
  - destruct (active (current_section st)); [|exact H].
    now apply DictFacts.mem_set_mono.
Qed.

(** A name that is current or stored stays stored to the end. *)
Lemma split_run_keeps (k : string) (l : list node) : forall st,
  active (current_section st) = Some k \/ Dict.mem (sections st) k = true ->
  Dict.mem (flush (split_run st l)) k = true.
Proof.
  induction l as [|n l IH]; intros st H; [now apply flush_mem|].
  unfold split_run in *. simpl. apply IH. unfold split_next.
  destruct (is_h 2 n); simpl.
  - right. now apply flush_mem.
  - unfold keep. destruct (active (current_section st)) eqn:A; simpl;
      rewrite A; exact H.
Qed.

(** Every name that is current or stored is the text of a level-2
    heading. *)
Lemma split_run_names (ast l : list node) : forall st,
  (forall n, In n l -> In n ast) ->
  (forall k, active (current_section st) = Some k
             \/ Dict.mem (sections st) k = true -> h2_text_of ast k) ->
  forall k, Dict.mem (flush (split_run st l)) k = true -> h2_text_of ast k.
Proof.
  induction l as [|n l IH]; intros st Hl Hst k Hk.
  - apply Hst. now apply flush_mem_inv.
  - unfold split_run in *. simpl in Hk.
    apply (IH (split_next st n)); [| |exact Hk].
    + intros x Hx. apply Hl. now right.
    + intros k' Hk'. unfold split_next in Hk'.
      destruct (is_h 2 n) eqn:E; simpl in Hk'.
      * destruct Hk' as [A|M].
        -- destruct (truthy (_extract_text n)); [|discriminate].
           injection A as <-.
           exists n. repeat split; [apply Hl; now left | exact E].
        -- apply Hst. now apply flush_mem_inv.
      * apply Hst. unfold keep in Hk'.
        destruct (active (current_section st)) eqn:A; simpl in Hk';
          rewrite A in Hk'; exact Hk'.
Qed.

(** X4. On a well-formed document the names of the sections are exactly
    the non-empty texts of the level-2 headings among the top-level
    nodes. *)
Theorem X4_section_names_are_h2_texts (ast : list node) :
  wf_ast ast = true ->
  exists m,
    _extract_sections ast = Ok m
    /\ forall k, Dict.mem m k = true <-> (k <> "" /\ h2_text_of ast k).
Proof.
  intros Hwf. destruct (extract_sections_spec ast Hwf) as [m [Hm [He Hget]]].
  exists m. split; [exact Hm|]. intros k.
  assert (Hmem : Dict.mem m k
                 = Dict.mem (flush (split_run split_init ast)) k).
  { unfold Dict.mem. rewrite Hget.
    now destruct (Dict.get (flush (split_run split_init ast)) k). }
  split.
  - intros H. split.
    + intros ->. unfold Dict.mem in H. now rewrite He in H.
    + rewrite Hmem in H.
      apply (@split_run_names ast ast split_init); [auto| |exact H].
      intros k' [A|M]; discriminate.
  - intros [Hne [h [Hin [Hh Ht]]]]. rewrite Hmem.
    apply in_split in Hin as [a [b ->]].
    rewrite split_run_app.
    change (h :: b) with ([h] ++ b). rewrite split_run_app.
    apply split_run_keeps. left.
    unfold split_run. simpl. unfold split_next. rewrite Hh, Ht. simpl.
    now apply active_of_truthy.
Qed.

Lemma X4_witness :
  exists m,
    _extract_sections
      [Md.h 1 "Title"; Md.h 2 "Context and Problem Statement";
       Md.h 3 "Detail"; Md.heading 2 []; Md.h 2 "Decision Outcome"]
    = Ok m
    /\ Dict.mem m "Decision Outcome" = true.
Proof.
  destruct (@X4_section_names_are_h2_texts
              [Md.h 1 "Title"; Md.h 2 "Context and Problem Statement";
               Md.h 3 "Detail"; Md.heading 2 []; Md.h 2 "Decision Outcome"]
              eq_refl) as [m [Hm Hk]].
  exists m. split; [exact Hm|]. apply Hk. split; [discriminate|].
  exists (Md.h 2 "Decision Outcome"). repeat split.
  simpl. tauto.
Defined.

Lemma section_value_not_empty_items (nodes : list node) :
  section_value nodes <> Items [].
Proof.
  unfold section_value. destruct (all_items nodes) eqn:E; [discriminate|].
  intros [= H].
Qed.

Lemma normalize_into_values (raw : Dict.t (list node)) : forall acc m,
  normalize_into acc raw = Ok m ->
  (forall k, Dict.get acc k <> Some (Items [])) ->
  forall k, Dict.get m k <> Some (Items []).
Proof.
  induction raw as [|[name nodes] rest IH]; simpl; intros acc m Hm Hacc.
  - now injection Hm as <-.
  - rewrite normalize_bucket_cases in Hm.
    destruct (forallb list_ok nodes); simpl in Hm; [|discriminate].
    apply (IH _ _ Hm). intros k.
    destruct (String.eqb_spec name k) as [->|Hne].
    + rewrite DictFacts.get_set_eq. intros [= H].
      now apply section_value_not_empty_items in H.
    + now rewrite DictFacts.get_set_ne.
Qed.

Lemma parse_parts (L : Labels) (ast : list node) (r : MADRParser) :
  parse L ast = Ok r ->
  _extract_title ast = Ok (title r)
  /\ _extract_options_pros_and_cons L ast = Ok (options_pros_and_cons r).
Proof.
  unfold parse.
  destruct (_extract_title ast) as [ti|]; simpl; [|discriminate].
  destruct (_extract_sections ast) as [m|]; simpl; [|discriminate].
  destruct (_extract_options_pros_and_cons L ast) as [o|]; simpl; [|discriminate].
  intros [= <-]. split; reflexivity.
Qed.

(** X5. A list of the record is absent or has an item: no section is
    stored as an empty list, so that the three optional lists of a record
    are never the empty list. *)
Theorem X5_lists_are_never_empty (L : Labels) (ast : list node) (r : MADRParser) :
  parse L ast = Ok r ->
  decision_drivers r <> Some []
  /\ considered_options r <> Some []
  /\ decision_confirmation r <> Some []
  /\ forall m k, _extract_sections ast = Ok m ->
                 Dict.get m k <> Some (Items []) /\ _get_list m k <> Some [].
Proof.
  intros Hr.
  assert (Hall : forall m k, _extract_sections ast = Ok m ->
                   Dict.get m k <> Some (Items [])
                   /\ _get_list m k <> Some []).
  { intros m k Hm. unfold _extract_sections, _normalize_sections in Hm.
    destruct (raw_sections ast) as [raw|]; simpl in Hm; [|discriminate].
    assert (Hk : Dict.get m k <> Some (Items [])).
    { apply (normalize_into_values _ _ Hm). intros k'. discriminate. }
    split; [exact Hk|]. unfold _get_list.
    destruct (Dict.get m k) as [[s|l]|]; try discriminate.
    intros [= ->]. now apply Hk. }
  destruct (parse_fields _ _ Hr) as [m [Hm Hf]].
  unfold section_fields in Hf. injection Hf as _ _ Hd Hc _ Hconf _.
  rewrite Hd, Hc, Hconf.
  repeat split; try (now apply Hall); exact Hall.
Qed.

Lemma X5_witness :
  exists r,
    parse madr_labels
      [Md.h 1 "Title"; Md.h 2 "Considered Options"; Md.md_list []] = Ok r
    /\ considered_options r <> Some [].
Proof.
  eassert (Hr : parse madr_labels
                  [Md.h 1 "Title"; Md.h 2 "Considered Options"; Md.md_list []]
                = Ok _) by (vm_compute; reflexivity).
  eexists. split; [exact Hr|].
  apply (X5_lists_are_never_empty _ _ Hr).
Defined.

(** X6. How a section is read. In a well-formed document with a title,
    when the last section named [t] has the bucket [last], each of the
    three list fields whose label is [t] holds the items of the lists of
    the bucket, or is absent when there are none; each of the four string
    fields whose label is [t] holds those items joined by a newline, or
    the text of the bucket when there are none. *)
Theorem X6_section_as_list_and_as_string
    (L : Labels) (pre : list node) (h : node) (last rest : list node) :
  wf_ast (pre ++ h :: last ++ rest) = true ->
  has_title (pre ++ h :: last ++ rest) = true ->
  is_h 2 h = true -> _extract_text h <> "" ->
  forallb (fun n => negb (is_h 2 n)) last = true ->
  rest = [] \/ (exists r rest', rest = r :: rest' /\ is_h 2 r = true) ->
  forallb (fun n => negb (is_h_named 2 (_extract_text h) n)) rest = true ->
  let as_list := match all_items last with [] => None | l => Some l end in
  let as_string := match all_items last with
                   | [] => _extract_nodes_text last
                   | l => join newline l
                   end in
  exists r,
    parse L (pre ++ h :: last ++ rest) = Ok r
    /\ (DECISION_DRIVERS_LABEL L = _extract_text h ->
        decision_drivers r = as_list)
    /\ (CONSIDERED_OPTIONS_LABEL L = _extract_text h ->
        considered_options r = as_list)
    /\ (DECISION_CONFIRMATION_LABEL L = _extract_text h ->
        decision_confirmation r = as_list)
    /\ (CONTEXT_LABEL L = _extract_text h -> context r = as_string)
    /\ (DECISION_OUTCOME_LABEL L = _extract_text h ->
        decision_outcome r = as_string)
    /\ (DECISION_CONSEQUENCES_LABEL L = _extract_text h ->
        decision_consequences r = Some as_string)
    /\ (MORE_INFO_LABEL L = _extract_text h -> more_info r = Some as_string).
Proof.
  intros Hwf Htitle Hh Hne Hlast Hrest Hnamed as_list as_string.
  destruct (extract_sections_spec _ Hwf) as [m [Hm [_ Hget]]].
  assert (Hk : Dict.get m (_extract_text h) = Some (section_value last)).
  { rewrite Hget.
    change (h :: last ++ rest) with ([h] ++ last ++ rest).
    rewrite !split_run_app.
    now rewrite (@last_bucket_stored (_extract_text h))
      by assumption || reflexivity. }
  pose proof (parse_spec L _ Hwf) as Hp.
  destruct (find_some_existsb _ _ Htitle) as [ti Hti].
  rewrite Hti in Hp. destruct Hp as [r [Hr _]].
  exists r. split; [exact Hr|].
  destruct (parse_fields _ _ Hr) as [m' [Hm' Hf]].
  assert (m' = m) by congruence. subst m'.
  unfold section_fields in Hf.
  injection Hf as Hctx Hout Hdr Hco Hcons Hconf Hmore.
  rewrite Hctx, Hout, Hdr, Hco, Hcons, Hconf, Hmore.
  unfold _get_list, _get_str, as_list, as_string.
  repeat split; intros ->; rewrite Hk; unfold section_value;
    now destruct (all_items last).
Qed.

Lemma X6_witness :
  exists r,
    parse madr_labels
      ([Md.h 1 "Title"]
       ++ Md.h 2 "Context and Problem Statement"
       :: [Md.paragraph [Md.text "Because"]; Md.bullets ["one"; "two"]]
       ++ [Md.h 2 "Considered Options"; Md.paragraph [Md.text "Only prose"]])
    = Ok r
    /\ context r = join newline ["one"; "two"].
Proof.
  destruct (@X6_section_as_list_and_as_string madr_labels
              [Md.h 1 "Title"] (Md.h 2 "Context and Problem Statement")
              [Md.paragraph [Md.text "Because"]; Md.bullets ["one"; "two"]]
              [Md.h 2 "Considered Options"; Md.paragraph [Md.text "Only prose"]]
              eq_refl eq_refl eq_refl ltac:(discriminate) eq_refl
              (or_intror (ex_intro _ (Md.h 2 "Considered Options")
                            (ex_intro _ [Md.paragraph [Md.text "Only prose"]]
                                      (conj eq_refl eq_refl))))
              eq_refl) as [r [Hr [_ [_ [_ [Hc _]]]]]].
  exists r. split; [exact Hr | exact (Hc eq_refl)].
Defined.

Section SameLookups.
Variable V : Type.
Implicit Types (d : Dict.t V).

Lemma same_lookups_set d1 d2 (k : string) (v : V) :
  same_lookups d1 d2 -> same_lookups (Dict.set d1 k v) (Dict.set d2 k v).
Proof.
  intros H k'. destruct (String.eqb_spec k k') as [->|Hne].
  - now rewrite !DictFacts.get_set_eq.
  - now rewrite !DictFacts.get_set_ne.
Qed.

Lemma same_lookups_set_named_swap d (a b : string) (va vb : V) :
  a <> b ->
  same_lookups (set_named (set_named d a va) b vb)
               (set_named (set_named d b vb) a va).
Proof.
  intros Hab k. unfold set_named.
  destruct (truthy a), (truthy b); try reflexivity.
  destruct (String.eqb_spec a k) as [->|Ha], (String.eqb_spec b k) as [->|Hb];
    try congruence;
    repeat first [rewrite DictFacts.get_set_eq
                 | rewrite DictFacts.get_set_ne by congruence ];
    reflexivity.
Qed.
End SameLookups.

Lemma flush_after_section (st : split_state) (h : node) (body : list node) :
  is_h 2 h = true ->
  forallb (fun n => negb (is_h 2 n)) body = true ->
  flush (split_run st (h :: body))
  = set_named (flush st) (_extract_text h) body.
Proof.
  intros Hh Hbody.
  change (split_run st (h :: body)) with (split_run (split_next st h) body).
  unfold split_next. rewrite Hh. unfold set_named.
  destruct (truthy (_extract_text h)) eqn:T.
  - rewrite (@split_run_fill body _ (_extract_text h)); try assumption.
    + unfold flush. simpl. now rewrite T.
    + simpl. now rewrite T.
  - rewrite split_run_idle; try assumption.
    + unfold flush. simpl. now rewrite T.
    + simpl. now rewrite T.
Qed.

Lemma same_but_order_flush (st1 st2 : split_state) :
  same_but_order st1 st2 -> same_lookups (flush st1) (flush st2).
Proof.
  intros [Hcur [Hbuf Hsec]]. unfold flush. rewrite <- Hcur, <- Hbuf.
  destruct (active (current_section st1)); [|exact Hsec].
  now apply same_lookups_set.
Qed.

Lemma same_but_order_next (st1 st2 : split_state) (n : node) :
  same_but_order st1 st2 ->
  same_but_order (split_next st1 n) (split_next st2 n).
Proof.
  intros H. pose proof (same_but_order_flush H) as Hflush.
  destruct H as [Hcur [Hbuf Hsec]]. unfold split_next.
  destruct (is_h 2 n).
  - repeat split; simpl; auto.
  - unfold keep. rewrite <- Hcur.
    destruct (active (current_section st1)); repeat split; simpl; auto.
    now rewrite Hbuf.
Qed.

Lemma same_but_order_run (l : list node) : forall st1 st2,
  same_but_order st1 st2 ->
  same_but_order (split_run st1 l) (split_run st2 l).
Proof.
  induction l as [|n l IH]; intros st1 st2 H; [exact H|].
  unfold split_run in *. simpl. now apply IH, same_but_order_next.
Qed.

Lemma same_but_order_after_h2 (s1 s2 : split_state) (r : node) :
  is_h 2 r = true ->
  same_lookups (flush s1) (flush s2) ->
  same_but_order (split_run s1 [r]) (split_run s2 [r]).
Proof.
  intros Hr H. unfold split_run. simpl. unfold split_next. rewrite Hr.
  repeat split; simpl; auto.
Qed.

(** The buckets of two documents that differ in the order of two
    adjacent sections answer every lookup alike. *)
Lemma buckets_of_swapped_sections
      (pre : list node) (hA : node) (bodyA : list node) (hB : node)
      (bodyB rest : list node) :
  is_h 2 hA = true -> is_h 2 hB = true ->
  _extract_text hA <> _extract_text hB ->
  forallb (fun n => negb (is_h 2 n)) bodyA = true ->
  forallb (fun n => negb (is_h 2 n)) bodyB = true ->
  rest = [] \/ (exists r rest', rest = r :: rest' /\ is_h 2 r = true) ->
  same_lookups
    (flush (split_run split_init
              (pre ++ (hA :: bodyA) ++ (hB :: bodyB) ++ rest)))
    (flush (split_run split_init
              (pre ++ (hB :: bodyB) ++ (hA :: bodyA) ++ rest))).
Proof.
  intros HA HB Hab HbA HbB Hrest.
  rewrite !split_run_app.
  set (st := split_run split_init pre).
  assert (Hfl : same_lookups
                  (flush (split_run (split_run st (hA :: bodyA)) (hB :: bodyB)))
                  (flush (split_run (split_run st (hB :: bodyB)) (hA :: bodyA)))).
  { rewrite !flush_after_section by assumption.
    now apply same_lookups_set_named_swap. }
  destruct Hrest as [->|[r [rest' [-> Hr]]]]; [exact Hfl|].
  change (r :: rest') with ([r] ++ rest'). rewrite !split_run_app.
  apply same_but_order_flush, same_but_order_run.
  now apply same_but_order_after_h2.
Qed.

(** X7. Two adjacent sections with different names can change places:
    the sections of the two documents answer every lookup alike, and the
    seven fields of the record that are read from them are the same. *)
Theorem X7_sections_can_change_places
    (L : Labels) (pre : list node) (hA : node) (bodyA : list node) (hB : node)
    (bodyB rest : list node) :
  wf_ast (pre ++ (hA :: bodyA) ++ (hB :: bodyB) ++ rest) = true ->
  wf_ast (pre ++ (hB :: bodyB) ++ (hA :: bodyA) ++ rest) = true ->
  is_h 2 hA = true -> is_h 2 hB = true ->
  _extract_text hA <> _extract_text hB ->
  forallb (fun n => negb (is_h 2 n)) bodyA = true ->
  forallb (fun n => negb (is_h 2 n)) bodyB = true ->
  rest = [] \/ (exists r rest', rest = r :: rest' /\ is_h 2 r = true) ->
  exists m1 m2,
    _extract_sections (pre ++ (hA :: bodyA) ++ (hB :: bodyB) ++ rest) = Ok m1
    /\ _extract_sections (pre ++ (hB :: bodyB) ++ (hA :: bodyA) ++ rest) = Ok m2
    /\ same_lookups m1 m2
    /\ forall r1 r2,
         parse L (pre ++ (hA :: bodyA) ++ (hB :: bodyB) ++ rest) = Ok r1 ->
         parse L (pre ++ (hB :: bodyB) ++ (hA :: bodyA) ++ rest) = Ok r2 ->
         section_fields r1 = section_fields r2.
Proof.
  intros Hwf1 Hwf2 HA HB Hab HbA HbB Hrest.
  destruct (extract_sections_spec _ Hwf1) as [m1 [Hm1 [_ Hget1]]].
  destruct (extract_sections_spec _ Hwf2) as [m2 [Hm2 [_ Hget2]]].
  assert (Hsame : same_lookups m1 m2).
  { intros k. rewrite Hget1, Hget2.
    now rewrite (@buckets_of_swapped_sections pre hA bodyA hB bodyB rest). }
  exists m1, m2. repeat split; try assumption.
  intros r1 r2 Hr1 Hr2.
  destruct (parse_fields _ _ Hr1) as [m1' [Hm1' ->]].
  destruct (parse_fields _ _ Hr2) as [m2' [Hm2' ->]].
  assert (m1' = m1) by congruence. assert (m2' = m2) by congruence.
  subst m1' m2'. unfold _get_str, _get_list. now rewrite !Hsame.
Qed.

Lemma X7_witness :
  exists m1 m2,
    _extract_sections
      ([Md.h 1 "Title"]
       ++ (Md.h 2 "Decision Outcome" :: [Md.paragraph [Md.text "AssertJ"]])
       ++ (Md.h 2 "Considered Options" :: [Md.bullets ["Hamcrest"; "AssertJ"]])
       ++ []) = Ok m1
    /\ _extract_sections
         ([Md.h 1 "Title"]
          ++ (Md.h 2 "Considered Options" :: [Md.bullets ["Hamcrest"; "AssertJ"]])
          ++ (Md.h 2 "Decision Outcome" :: [Md.paragraph [Md.text "AssertJ"]])
          ++ []) = Ok m2
    /\ Dict.get m1 "Decision Outcome" = Dict.get m2 "Decision Outcome".
Proof.
  destruct (@X7_sections_can_change_places madr_labels
              [Md.h 1 "Title"]
              (Md.h 2 "Decision Outcome") [Md.paragraph [Md.text "AssertJ"]]
              (Md.h 2 "Considered Options") [Md.bullets ["Hamcrest"; "AssertJ"]]
              [] eq_refl eq_refl eq_refl eq_refl ltac:(discriminate)
              eq_refl eq_refl (or_introl eq_refl))
    as [m1 [m2 [H1 [H2 [Hs _]]]]].
  exists m1, m2. repeat split; try assumption. apply Hs.
Defined.

(** X8. A node that is no list and has no text, a blank line for one,
    changes nothing in the value of a bucket, wherever it stands. *)
Theorem X8_textless_node_is_ignored (a : list node) (n : node) (b : list node) :
  is_list n = false ->
  _extract_text n = "" ->
  normalize_bucket (a ++ n :: b) = normalize_bucket (a ++ b).
Proof.
  intros Hl Ht.
  assert (Hc : collect_items (a ++ n :: b) = collect_items (a ++ b)).
  { induction a as [|x a IH]; simpl; [now rewrite Hl|].
    now rewrite IH. }
  assert (Hx : _extract_nodes_text (a ++ n :: b) = _extract_nodes_text (a ++ b)).
  { unfold _extract_nodes_text. rewrite !map_app, !filter_app. simpl.
    now rewrite Ht. }
  unfold normalize_bucket, _extract_list. now rewrite Hc, Hx.
Qed.

Lemma X8_witness :
  normalize_bucket
    ([Md.paragraph [Md.text "one"]] ++ Md.blank_line :: [Md.paragraph [Md.text "two"]])
  = Ok (Text (join newline ["one"; "two"])).
Proof.
  rewrite (@X8_textless_node_is_ignored
             [Md.paragraph [Md.text "one"]] Md.blank_line
             [Md.paragraph [Md.text "two"]] eq_refl eq_refl).
  reflexivity.
Defined.

(* ===================================================================== *)
(** ** Further properties: the pros and cons *)
(* ===================================================================== *)

Section OptionBlocks.
Variable L : Labels.

(** Inside the section, under the option [t], a run of nodes without
    level-2 and level-3 headings appends the bullets of its lists. *)
Lemma pc_run_under_option (t : string) (seg : list node) : forall st l,
  in_section st = true ->
  current_option st = Some t ->
  truthy t = true ->
  Dict.get (pc_result st) t = Some l ->
  forallb no_h2_h3 seg = true ->
  pc_run L st seg
  = Continue {| in_section := true;
                current_option := Some t;
                pc_result := Dict.set (pc_result st) t (l ++ seg_bullets seg) |}.
Proof.
  induction seg as [|n seg IH]; intros st l Hin Hcur Ht Hget Hseg.
  - simpl. rewrite app_nil_r, (DictFacts.set_get_same _ _ Hget).
    destruct st; simpl in *. now subst.
  - simpl in Hseg. apply andb_true_iff in Hseg as [Hn Hseg].
    unfold no_h2_h3 in Hn. apply andb_true_iff in Hn as [H2 H3].
    apply negb_true_iff in H2, H3.
    simpl. unfold pc_next. rewrite H2, H3, andb_false_r.
    unfold pc_collect_next. rewrite Hcur, Hin. simpl. rewrite Ht.
    destruct (is_list n) eqn:El.
    + unfold get_or_nil. rewrite Hget.
      rewrite (IH _ (l ++ bullets_of n)); simpl; auto;
        [|apply DictFacts.get_set_eq].
      now rewrite DictFacts.set_set, <- app_assoc.
    + now apply IH.
Qed.

(** A level-3 heading with a non-empty text and the run of nodes under
    it: the bullets of the run go after those the option had. *)
Lemma pc_run_option_block (h : node) (seg : list node) (st : pc_state) :
  in_section st = true ->
  is_h 3 h = true ->
  truthy (_extract_text h) = true ->
  forallb no_h2_h3 seg = true ->
  pc_run L st (h :: seg)
  = Continue {| in_section := true;
                current_option := Some (_extract_text h);
                pc_result :=
                  Dict.set (pc_result st) (_extract_text h)
                    (get_or_nil (pc_result st) (_extract_text h)
                     ++ seg_bullets seg) |}.
Proof.
  intros Hin Hh Ht Hseg. simpl. unfold pc_next.
  rewrite (is_h3_not_h2 h Hh), Hh, Hin. simpl.
  unfold get_or_nil, Dict.mem.
  destruct (Dict.get (pc_result st) (_extract_text h)) as [l|] eqn:G.
  - now rewrite (@pc_run_under_option (_extract_text h) seg _ l).
  - rewrite (@pc_run_under_option (_extract_text h) seg _ []); simpl; auto;
      [|apply DictFacts.get_set_eq].
    now rewrite DictFacts.set_set.
Qed.

(** From a boundary on, the bullets of [t] stay as they are when no
    level-3 heading named [t] follows. *)
Lemma pc_run_after_boundary (t : string) (tail : list node) (st : pc_state) :
  in_section st = true ->
  at_boundary tail ->
  forallb (fun n => negb (is_h_named 3 t n)) tail = true ->
  Dict.get (pc_result (state_of (pc_run L st tail))) t
  = Dict.get (pc_result st) t.
Proof.
  intros Hin [->|[r [rest [-> Hr]]]] Hnamed; [reflexivity|].
  simpl in Hnamed. apply andb_true_iff in Hnamed as [Hr_named Hrest].
  apply negb_true_iff in Hr_named.
  destruct (@pc_next_frame L t st r Hr_named (or_intror (conj Hin Hr)))
    as [Hget Hcur].
  simpl. destruct (pc_next L st r) as [s|s] eqn:E; simpl in *.
  - rewrite (@pc_run_frame L t rest s (Hcur s eq_refl) Hrest). exact Hget.
  - exact Hget.
Qed.

(** Without an option, a run of nodes without level-2 and level-3
    headings changes nothing. *)
Lemma pc_run_without_option (seg : list node) (st : pc_state) :
  active (current_option st) = None ->
  forallb no_h2_h3 seg = true ->
  pc_run L st seg = Continue st.
Proof.
  intros Hcur. induction seg as [|n seg IH]; intros Hseg; [reflexivity|].
  simpl in Hseg. apply andb_true_iff in Hseg as [Hn Hseg].
  unfold no_h2_h3 in Hn. apply andb_true_iff in Hn as [H2 H3].
  apply negb_true_iff in H2, H3.
  simpl. unfold pc_next. rewrite H2, H3, andb_false_r.
  unfold pc_collect_next. rewrite Hcur. now apply IH.
Qed.
End OptionBlocks.

(** X9. The bullets of an option are the non-empty item texts of the
    lists that stand between its heading and the next level-2 or level-3
    heading, in order, when the option has a non-empty name that no other
    level-3 heading of the section bears. *)
Theorem X9_bullets_of_an_option
    (L : Labels) (pre : list node) (P : node) (b1 : list node) (h : node)
    (seg tail : list node) :
  existsb (is_pros L) pre = false ->
  is_pros L P = true ->
  forallb (fun n => negb (is_h 2 n)) b1 = true ->
  is_h 3 h = true ->
  _extract_text h <> "" ->
  forallb no_h2_h3 seg = true ->
  at_boundary tail ->
  forallb (fun n => negb (is_h_named 3 (_extract_text h) n)) (b1 ++ tail)
  = true ->
  exists d,
    _extract_options_pros_and_cons L (pre ++ P :: b1 ++ h :: seg ++ tail)
    = Ok (Some d)
    /\ Dict.get d (_extract_text h) = Some (seg_bullets seg).
Proof.
  intros Hpre HP Hb1 Hh Hne Hseg Htail Hnamed.
  rewrite forallb_app in Hnamed. apply andb_true_iff in Hnamed as [Hn1 Hn2].
  apply truthy_true_iff in Hne.
  rewrite extract_options_ok, (pc_run_enter L pre P _ Hpre HP).
  destruct (pc_run_no_h2 L b1 pc_entered Hb1) as [s2 [Hrun2 Hin2]].
  pose proof (@pc_run_frame L (_extract_text h) b1 pc_entered
                ltac:(discriminate) Hn1) as Hf.
  rewrite Hrun2 in Hf. simpl in Hf, Hin2.
  change (h :: seg ++ tail) with ((h :: seg) ++ tail).
  rewrite pc_run_app, Hrun2, pc_run_app.
  rewrite (pc_run_option_block L h seg s2 Hin2 Hh Hne Hseg).
  unfold get_or_nil. rewrite Hf. simpl app.
  set (s3 := {| in_section := true;
                current_option := Some (_extract_text h);
                pc_result := Dict.set (pc_result s2) (_extract_text h)
                               (seg_bullets seg) |}).
  pose proof (@pc_run_after_boundary L (_extract_text h) tail s3
                eq_refl Htail Hn2) as Hget.
  simpl in Hget. rewrite DictFacts.get_set_eq in Hget.
  set (d := pc_result (state_of (pc_run L s3 tail))) in *.
  exists d. cbv zeta.
  assert (Hmem : Dict.mem d (_extract_text h) = true)
    by (unfold Dict.mem; now rewrite Hget).
  rewrite (DictFacts.mem_truthy _ _ Hmem). split; [reflexivity | exact Hget].
Qed.

Lemma X9_witness :
  exists d,
    _extract_options_pros_and_cons madr_labels
      ([Md.h 1 "Title"] ++ Md.h 2 "Pros and Cons of the Options"
       :: [Md.paragraph [Md.text "All options:"]]
       ++ Md.h 3 "Hamcrest"
       :: [Md.bullets ["Good"]; Md.paragraph [Md.text "and"];
           Md.md_list [Md.bullet ""; Md.bullet "Bad"]]
       ++ [Md.h 3 "AssertJ"; Md.bullets ["Neutral"]])
    = Ok (Some d)
    /\ Dict.get d "Hamcrest" = Some ["Good"; "Bad"].
Proof.
  apply (@X9_bullets_of_an_option madr_labels
           [Md.h 1 "Title"] (Md.h 2 "Pros and Cons of the Options")
           [Md.paragraph [Md.text "All options:"]]
           (Md.h 3 "Hamcrest")
           [Md.bullets ["Good"]; Md.paragraph [Md.text "and"];
            Md.md_list [Md.bullet ""; Md.bullet "Bad"]]
           [Md.h 3 "AssertJ"; Md.bullets ["Neutral"]]);
    try reflexivity; try discriminate.
  right. exists (Md.h 3 "AssertJ"), [Md.bullets ["Neutral"]].
  split; reflexivity.
Defined.

(** X10. A second level-3 heading with the name of an option does not
    start it over: the bullets under the second heading go after those
    under the first. *)
Theorem X10_repeated_option_accumulates
    (L : Labels) (pre : list node) (P : node) (b1 : list node) (h : node)
    (seg1 : list node) (h' : node) (seg2 tail : list node) :
  existsb (is_pros L) pre = false ->
  is_pros L P = true ->
  forallb (fun n => negb (is_h 2 n)) b1 = true ->
  is_h 3 h = true -> is_h 3 h' = true ->
  _extract_text h <> "" -> _extract_text h' = _extract_text h ->
  forallb no_h2_h3 seg1 = true ->
  forallb no_h2_h3 seg2 = true ->
  at_boundary tail ->
  forallb (fun n => negb (is_h_named 3 (_extract_text h) n)) (b1 ++ tail)
  = true ->
  exists d,
    _extract_options_pros_and_cons L
      (pre ++ P :: b1 ++ h :: seg1 ++ h' :: seg2 ++ tail)
    = Ok (Some d)
    /\ Dict.get d (_extract_text h)
       = Some (seg_bullets seg1 ++ seg_bullets seg2).
Proof.
  intros Hpre HP Hb1 Hh Hh' Hne Hsame Hseg1 Hseg2 Htail Hnamed.
  rewrite forallb_app in Hnamed. apply andb_true_iff in Hnamed as [Hn1 Hn2].
  apply truthy_true_iff in Hne.
  rewrite extract_options_ok, (pc_run_enter L pre P _ Hpre HP).
  destruct (pc_run_no_h2 L b1 pc_entered Hb1) as [s2 [Hrun2 Hin2]].
  pose proof (@pc_run_frame L (_extract_text h) b1 pc_entered
                ltac:(discriminate) Hn1) as Hf.
  rewrite Hrun2 in Hf. simpl in Hf, Hin2.
  change (h :: seg1 ++ h' :: seg2 ++ tail)
    with ((h :: seg1) ++ (h' :: seg2) ++ tail).
  rewrite pc_run_app, Hrun2, pc_run_app.
  rewrite (pc_run_option_block L h seg1 s2 Hin2 Hh Hne Hseg1).
  rewrite pc_run_app.
  assert (Hne' : truthy (_extract_text h') = true) by now rewrite Hsame.
  match goal with
  | |- context [pc_run L ?s (h' :: seg2)] =>
      rewrite (pc_run_option_block L h' seg2 s eq_refl Hh' Hne' Hseg2)
  end.
  rewrite Hsame. cbn [pc_result].
  unfold get_or_nil. rewrite Hf, DictFacts.get_set_eq, DictFacts.set_set.
  simpl app.
  set (s3 := {| in_section := true;
                current_option := Some (_extract_text h);
                pc_result := Dict.set (pc_result s2) (_extract_text h)
                               (seg_bullets seg1 ++ seg_bullets seg2) |}).
  pose proof (@pc_run_after_boundary L (_extract_text h) tail s3
                eq_refl Htail Hn2) as Hget.
  simpl in Hget. rewrite DictFacts.get_set_eq in Hget.
  set (d := pc_result (state_of (pc_run L s3 tail))) in *.
  exists d. cbv zeta.
  assert (Hmem : Dict.mem d (_extract_text h) = true)
    by (unfold Dict.mem; now rewrite Hget).
  rewrite (DictFacts.mem_truthy _ _ Hmem). split; [reflexivity | exact Hget].
Qed.

Lemma X10_witness :
  exists d,
    _extract_options_pros_and_cons madr_labels
      ([] ++ Md.h 2 "Pros and Cons of the Options"
       :: [] ++ Md.h 3 "Hamcrest" :: [Md.bullets ["Good"]]
       ++ Md.h 3 "Hamcrest" :: [Md.bullets ["Bad"]] ++ [])
    = Ok (Some d)
    /\ Dict.get d "Hamcrest" = Some ["Good"; "Bad"].
Proof.
  apply (@X10_repeated_option_accumulates madr_labels
           [] (Md.h 2 "Pros and Cons of the Options") []
           (Md.h 3 "Hamcrest") [Md.bullets ["Good"]]
           (Md.h 3 "Hamcrest") [Md.bullets ["Bad"]] []);
    try reflexivity; try discriminate.
  now left.
Defined.

(** X11. Nothing outside an option is collected: what stands before the
    heading of the section, and what stands between that heading and the
    first level-2 or level-3 heading after it, can be taken out of the
    document without changing the result. *)
Theorem X11_only_options_collect
    (L : Labels) (pre : list node) (P : node) (seg rest : list node) :
  existsb (is_pros L) pre = false ->
  is_pros L P = true ->
  forallb no_h2_h3 seg = true ->
  _extract_options_pros_and_cons L (pre ++ P :: seg ++ rest)
  = _extract_options_pros_and_cons L (P :: rest).
Proof.
  intros Hpre HP Hseg. rewrite !extract_options_ok.
  rewrite (pc_run_enter L pre P _ Hpre HP).
  pose proof (pc_run_enter L [] P rest eq_refl HP) as H0.
  simpl app in H0. rewrite H0.
  now rewrite pc_run_app, pc_run_without_option.
Qed.

Lemma X11_witness :
  _extract_options_pros_and_cons madr_labels
    ([Md.h 2 "Considered Options"; Md.h 3 "Hamcrest"; Md.bullets ["early"]]
     ++ Md.h 2 "Pros and Cons of the Options"
     :: [Md.bullets ["no option yet"]]
     ++ [Md.h 3 "AssertJ"; Md.bullets ["Good"]])
  = Ok (Some [("AssertJ", ["Good"])]).
Proof.
  rewrite (@X11_only_options_collect madr_labels
             [Md.h 2 "Considered Options"; Md.h 3 "Hamcrest";
              Md.bullets ["early"]]
             (Md.h 2 "Pros and Cons of the Options")
             [Md.bullets ["no option yet"]]
             [Md.h 3 "AssertJ"; Md.bullets ["Good"]]
             eq_refl eq_refl eq_refl).
  reflexivity.
Defined.

Lemma get_set_cases (V : Type) (d : Dict.t V) (k k' : string) (v x : V) :
  Dict.get (Dict.set d k v) k' = Some x ->
  (k = k' /\ x = v) \/ (k <> k' /\ Dict.get d k' = Some x).
Proof.
  destruct (String.eqb_spec k k') as [->|Hne].
  - rewrite DictFacts.get_set_eq. intros [= <-]. now left.
  - rewrite DictFacts.get_set_ne by assumption. now right.
Qed.


Section OptionInvariants.
Variable L : Labels.

(** A property of the state that every turn keeps holds at the end of
    the loop. *)
Lemma pc_run_invariant (Inv : pc_state -> Prop) (Q : node -> Prop) :
  (forall st n, Q n -> Inv st -> Inv (state_of (pc_next L st n))) ->
  forall l st, Forall Q l -> Inv st -> Inv (state_of (pc_run L st l)).
Proof.
  intros Hstep. induction l as [|n l IH]; intros st Hl Hst; [exact Hst|].
  inversion Hl; subst. simpl.
  pose proof (Hstep st n ltac:(assumption) Hst) as Hn.
  destruct (pc_next L st n); [now apply IH | exact Hn].
Qed.

Lemma pc_next_bullets_satisfy (P : string -> bool) (st : pc_state) (n : node) :
  (forall x, In x (bullets_of n) -> P x = true) ->
  bullets_satisfy P st -> bullets_satisfy P (state_of (pc_next L st n)).
Proof.
  intros HP Hst. unfold pc_next.
  destruct (is_h 2 n).
  - now destruct (in_section st && _).
  - destruct (in_section st && is_h 3 n); simpl.
    + destruct (Dict.mem (pc_result st) (_extract_text n)); [exact Hst|].
      intros k items Hk. simpl in Hk.
      apply get_set_cases in Hk as [[_ ->]|[_ Hk]]; [reflexivity|].
      now apply (Hst k).
    + unfold pc_collect_next.
      destruct (active (current_option st)) as [opt|]; [|exact Hst].
      destruct (in_section st && is_list n); [|exact Hst].
      intros k items Hk. simpl in Hk.
      apply get_set_cases in Hk as [[_ ->]|[_ Hk]]; [|now apply (Hst k)].
      rewrite forallb_app. apply andb_true_iff. split.
      * unfold get_or_nil.
        destruct (Dict.get (pc_result st) opt) as [l|] eqn:G; [|reflexivity].
        now apply (Hst opt).
      * now apply forallb_forall.
Qed.

Lemma pc_next_nameless_is_empty (st : pc_state) (n : node) :
  nameless_is_empty st -> nameless_is_empty (state_of (pc_next L st n)).
Proof.
  intros Hst. unfold pc_next.
  destruct (is_h 2 n).
  - now destruct (in_section st && _).
  - destruct (in_section st && is_h 3 n); simpl.
    + destruct (Dict.mem (pc_result st) (_extract_text n)); [exact Hst|].
      intros items Hk. simpl in Hk.
      apply get_set_cases in Hk as [[_ ->]|[_ Hk]]; [reflexivity|].
      now apply Hst.
    + unfold pc_collect_next.
      destruct (active (current_option st)) as [opt|] eqn:A; [|exact Hst].
      destruct (in_section st && is_list n); [|exact Hst].
      apply active_some in A as [_ Hne].
      intros items Hk. simpl in Hk.
      rewrite DictFacts.get_set_ne in Hk by assumption. now apply Hst.
Qed.

Lemma pc_next_names_from_h3 (ast : list node) (st : pc_state) (n : node) :
  In n ast ->
  names_from_h3 ast st -> names_from_h3 ast (state_of (pc_next L st n)).
Proof.
  intros Hin [Hkeys Hcur]. unfold pc_next.
  destruct (is_h 2 n).
  - destruct (in_section st && _); simpl; [now split|].
    split; [exact Hkeys | discriminate].
  - destruct (in_section st && is_h 3 n) eqn:E; simpl.
    + apply andb_true_iff in E as [_ E].
      assert (Hn : h3_text_of ast (_extract_text n))
        by (exists n; repeat split; assumption).
      split; simpl.
      * destruct (Dict.mem (pc_result st) (_extract_text n)); [exact Hkeys|].
        intros k Hk. apply mem_set_inv in Hk as [<-|Hk]; auto.
      * now intros opt [= <-].
    + unfold pc_collect_next.
      destruct (active (current_option st)) as [opt|] eqn:A; [|now split].
      destruct (in_section st && is_list n); [|now split].
      apply active_some in A as [A _].
      split; simpl; [|exact Hcur].
      intros k Hk. apply mem_set_inv in Hk as [<-|Hk]; auto.
Qed.

(** A turn of the loop keeps the bullets of every option and may add
    some after them. *)
Lemma pc_next_extends (st : pc_state) (n : node) (k : string)
      (items : list string) :
  Dict.get (pc_result st) k = Some items ->
  exists more,
    Dict.get (pc_result (state_of (pc_next L st n))) k = Some (items ++ more).
Proof.
  intros Hk. unfold pc_next.
  destruct (is_h 2 n).
  - exists []. rewrite app_nil_r. now destruct (in_section st && _).
  - destruct (in_section st && is_h 3 n); simpl.
    + exists []. rewrite app_nil_r.
      destruct (Dict.mem (pc_result st) (_extract_text n)) eqn:M; [exact Hk|].
      rewrite DictFacts.get_set_ne; [exact Hk|].
      intros <-. unfold Dict.mem in M. now rewrite Hk in M.
    + unfold pc_collect_next.
      destruct (active (current_option st)) as [opt|];
        [|exists []; now rewrite app_nil_r].
      destruct (in_section st && is_list n);
        [|exists []; now rewrite app_nil_r].
      simpl. destruct (String.eqb_spec opt k) as [->|Hne].
      * exists (bullets_of n). rewrite DictFacts.get_set_eq.
        unfold get_or_nil. now rewrite Hk.
      * exists []. rewrite app_nil_r. now rewrite DictFacts.get_set_ne.
Qed.

Lemma pc_run_extends (l : list node) : forall st k items,
  Dict.get (pc_result st) k = Some items ->
  exists more,
    Dict.get (pc_result (state_of (pc_run L st l))) k = Some (items ++ more).
Proof.
  induction l as [|n l IH]; intros st k items Hk.
  - exists []. now rewrite app_nil_r.
  - simpl. destruct (pc_next_extends st n _ Hk) as [m1 H1].
    destruct (pc_next L st n) as [s|s]; simpl in *.
    + destruct (IH s k _ H1) as [m2 H2].
      exists (m1 ++ m2). now rewrite app_assoc.
    + now exists m1.
Qed.
End OptionInvariants.

Lemma extract_options_some (L : Labels) (ast : list node)
      (d : Dict.t (list string)) :
  _extract_options_pros_and_cons L ast = Ok (Some d) ->
  d = pc_result (state_of (pc_run L pc_init ast)).
Proof.
  rewrite extract_options_ok. cbv zeta.
  destruct (Dict.truthy _); congruence.
Qed.

(** X12. No bullet of the result is the empty string. *)
Theorem X12_no_empty_bullet
    (L : Labels) (ast : list node) (d : Dict.t (list string)) (k : string)
    (items : list string) :
  _extract_options_pros_and_cons L ast = Ok (Some d) ->
  Dict.get d k = Some items ->
  ~ In "" items.
Proof.
  intros Hd Hk Hin. apply extract_options_some in Hd. subst d.
  assert (Hinv : bullets_satisfy truthy (state_of (pc_run L pc_init ast))).
  { apply (@pc_run_invariant L (bullets_satisfy truthy) (fun _ => True)).
    - intros st n _. apply pc_next_bullets_satisfy.
      intros x Hx. unfold bullets_of in Hx. now apply filter_In in Hx.
    - apply Forall_forall. auto.
    - intros k' items' H. discriminate. }
  specialize (Hinv k items Hk). rewrite forallb_forall in Hinv.
  now specialize (Hinv "" Hin).
Qed.

Lemma X12_witness :
  ~ In "" ["Good"].
Proof.
  exact (@X12_no_empty_bullet madr_labels
           [Md.h 2 "Pros and Cons of the Options"; Md.h 3 "Hamcrest";
            Md.md_list [Md.bullet "Good"; Md.list_item []; Md.bullet "   "]]
           [("Hamcrest", ["Good"])] "Hamcrest" ["Good"] eq_refl eq_refl).
Defined.

(** X13. A level-3 heading without text makes an option with the empty
    name, and that option never gets a bullet. *)
Theorem X13_nameless_option_has_no_bullet
    (L : Labels) (ast : list node) (d : Dict.t (list string))
    (items : list string) :
  _extract_options_pros_and_cons L ast = Ok (Some d) ->
  Dict.get d "" = Some items ->
  items = [].
Proof.
  intros Hd Hk. apply extract_options_some in Hd. subst d.
  assert (Hinv : nameless_is_empty (state_of (pc_run L pc_init ast))).
  { apply (@pc_run_invariant L nameless_is_empty (fun _ => True)).
    - intros st n _. apply pc_next_nameless_is_empty.
    - apply Forall_forall. auto.
    - intros items' H. discriminate. }
  now apply Hinv.
Qed.

Lemma X13_witness :
  @nil string = [].
Proof.
  exact (@X13_nameless_option_has_no_bullet madr_labels
           [Md.h 2 "Pros and Cons of the Options"; Md.heading 3 [];
            Md.bullets ["Good"; "Bad"]]
           [("", [])] [] eq_refl eq_refl).
Defined.

(** X14. Every key of the result is the text of a level-3 heading among
    the top-level nodes of the document. *)
Theorem X14_options_are_h3_texts
    (L : Labels) (ast : list node) (d : Dict.t (list string)) (k : string) :
  _extract_options_pros_and_cons L ast = Ok (Some d) ->
  Dict.mem d k = true ->
  h3_text_of ast k.
Proof.
  intros Hd Hk. apply extract_options_some in Hd. subst d.
  assert (Hinv : names_from_h3 ast (state_of (pc_run L pc_init ast))).
  { apply (@pc_run_invariant L (names_from_h3 ast) (fun n => In n ast)).
    - intros st n Hn. now apply pc_next_names_from_h3.
    - apply Forall_forall. auto.
    - split; intros ? H; discriminate. }
  destruct Hinv as [Hkeys _]. now apply Hkeys.
Qed.

Lemma X14_witness :
  h3_text_of
    [Md.h 2 "Pros and Cons of the Options"; Md.h 3 "Hamcrest";
     Md.bullets ["Good"]]
    "Hamcrest".
Proof.
  exact (@X14_options_are_h3_texts madr_labels
           [Md.h 2 "Pros and Cons of the Options"; Md.h 3 "Hamcrest";
            Md.bullets ["Good"]]
           [("Hamcrest", ["Good"])] "Hamcrest" eq_refl eq_refl).
Defined.

Lemma truthy_has_key (V : Type) (d : Dict.t V) :
  Dict.truthy d = true -> exists k v, Dict.get d k = Some v.
Proof.
  destruct d as [|[k v] d]; [discriminate|]. intros _.
  exists k, v. simpl. now rewrite String.eqb_refl.
Qed.

(** X15. A document that goes on keeps what was found: when a document
    has options, the document with more nodes after it has them too, each
    with the same bullets, in the same order, and perhaps more after
    them. *)
Theorem X15_longer_document_keeps_options
    (L : Labels) (pre post : list node) (d : Dict.t (list string)) :
  _extract_options_pros_and_cons L pre = Ok (Some d) ->
  exists d',
    _extract_options_pros_and_cons L (pre ++ post) = Ok (Some d')
    /\ forall k items, Dict.get d k = Some items ->
         exists more, Dict.get d' k = Some (items ++ more).
Proof.
  intros Hd. pose proof (extract_options_some _ _ Hd) as Hd0.
  rewrite extract_options_ok in Hd. cbv zeta in Hd. rewrite <- Hd0 in Hd.
  assert (Ht : Dict.truthy d = true) by (destruct (Dict.truthy d); congruence).
  set (d' := pc_result (state_of (pc_run L pc_init (pre ++ post)))).
  assert (Hext : forall k items, Dict.get d k = Some items ->
                   exists more, Dict.get d' k = Some (items ++ more)).
  { intros k items Hk. subst d d'. rewrite pc_run_app.
    destruct (pc_run L pc_init pre) as [s|s]; simpl in *.
    - now apply pc_run_extends.
    - exists []. now rewrite app_nil_r. }
  exists d'. split; [|exact Hext].
  rewrite extract_options_ok. cbv zeta. fold d'.
  destruct (truthy_has_key _ Ht) as [k [v Hk]].
  destruct (Hext k v Hk) as [more Hk'].
  assert (Hmem : Dict.mem d' k = true) by (unfold Dict.mem; now rewrite Hk').
  now rewrite (DictFacts.mem_truthy _ _ Hmem).
Qed.

Lemma X15_witness :
  exists d',
    _extract_options_pros_and_cons madr_labels
      ([Md.h 2 "Pros and Cons of the Options"; Md.h 3 "Hamcrest";
        Md.bullets ["Good"]]
       ++ [Md.bullets ["Bad"]; Md.h 3 "AssertJ"])
    = Ok (Some d')
    /\ exists more, Dict.get d' "Hamcrest" = Some (["Good"] ++ more).
Proof.
  destruct (@X15_longer_document_keeps_options madr_labels
              [Md.h 2 "Pros and Cons of the Options"; Md.h 3 "Hamcrest";
               Md.bullets ["Good"]]
              [Md.bullets ["Bad"]; Md.h 3 "AssertJ"]
              [("Hamcrest", ["Good"])] eq_refl) as [d' [Hd' Hext]].
  exists d'. split; [exact Hd'|]. now apply Hext.
Defined.

(* ===================================================================== *)
(** ** Further properties: the texts *)
(* ===================================================================== *)

Lemma starts_space_lstrip (s : string) : starts_space (lstrip s) = false.
Proof.
  induction s as [|c s IH]; [reflexivity|].
  simpl. destruct (isspace c) eqn:E; [exact IH | simpl; exact E].
Qed.

Lemma ends_space_cons (c : ascii) (s : string) :
  truthy s = true -> ends_space (String c s) = ends_space s.
Proof. destruct s; [discriminate | reflexivity]. Qed.

Lemma ends_space_rstrip (s : string) : ends_space (rstrip s) = false.
Proof.
  induction s as [|c s IH]; [reflexivity|].
  simpl. destruct (truthy (rstrip s)) eqn:T.
  - rewrite andb_false_r. now rewrite ends_space_cons.
  - rewrite andb_true_r. apply truthy_false_iff in T. rewrite T.
    destruct (isspace c) eqn:E; [reflexivity | simpl; exact E].
Qed.

Lemma ends_space_lstrip (s : string) :
  ends_space s = false -> ends_space (lstrip s) = false.
Proof.
  induction s as [|c s IH]; [reflexivity|].
  intros H. simpl. destruct (isspace c) eqn:E; [|exact H].
  apply IH. destruct s as [|c' s']; [reflexivity|]. exact H.
Qed.

Lemma no_edge_space_strip (s : string) : no_edge_space (strip s) = true.
Proof.
  unfold no_edge_space, strip.
  now rewrite starts_space_lstrip, ends_space_lstrip by apply ends_space_rstrip.
Qed.

Lemma no_edge_space_item_texts (n : node) (x : string) :
  In x (map item_text (children_or_empty n)) -> no_edge_space x = true.
Proof.
  intros H. apply in_map_iff in H as [item [<- _]].
  apply no_edge_space_strip.
Qed.

Lemma no_edge_space_all_items (nodes : list node) :
  forallb no_edge_space (all_items nodes) = true.
Proof.
  apply forallb_forall. intros x Hx. unfold all_items in Hx.
  apply in_flat_map in Hx as [n [_ Hx]].
  destruct (is_list n); [|contradiction].
  now apply (no_edge_space_item_texts n).
Qed.

(** X16. The texts the parser builds carry no whitespace at either end:
    the text of a node that has children (the title of a heading with
    inline content, for one), the text and the list items of a section,
    and the bullets of an option. *)
Theorem X16_no_surrounding_whitespace :
  (forall n, no_children n = false -> no_edge_space (_extract_text n) = true)
  /\ (forall bucket v, normalize_bucket bucket = Ok v ->
        match v with
        | Text s => no_edge_space s = true
        | Items l => forallb no_edge_space l = true
        end)
  /\ (forall L ast d k items,
        _extract_options_pros_and_cons L ast = Ok (Some d) ->
        Dict.get d k = Some items ->
        forallb no_edge_space items = true).
Proof.
  split; [|split].
  - intros n Hn. destruct n as [t lv [[|c cs]|] r]; try discriminate.
    apply no_edge_space_strip.
  - intros bucket v Hv. rewrite normalize_bucket_cases in Hv.
    destruct (forallb list_ok bucket); [|discriminate].
    injection Hv as <-. unfold section_value.
    pose proof (no_edge_space_all_items bucket) as Hall.
    destruct (all_items bucket); [apply no_edge_space_strip | exact Hall].
  - intros L ast d k items Hd Hk.
    apply extract_options_some in Hd. subst d.
    assert (Hinv : bullets_satisfy no_edge_space
                     (state_of (pc_run L pc_init ast))).
    { apply (@pc_run_invariant L (bullets_satisfy no_edge_space)
               (fun _ => True)).
      - intros st n _. apply pc_next_bullets_satisfy.
        intros x Hx. unfold bullets_of in Hx. apply filter_In in Hx as [Hx _].
        now apply (no_edge_space_item_texts n).
      - apply Forall_forall. auto.
      - intros k' items' H. discriminate. }
    now apply (Hinv k).
Qed.

Lemma X16_witness :
  no_edge_space "Use AssertJ" = true
  /\ forallb no_edge_space ["Good"; "Bad"] = true.
Proof.
  split.
  - exact (proj1 X16_no_surrounding_whitespace
             (Md.h 1 "   Use AssertJ  ") eq_refl).
  - exact (proj2 (proj2 X16_no_surrounding_whitespace) madr_labels
             [Md.h 2 "Pros and Cons of the Options"; Md.h 3 " Hamcrest ";
              Md.bullets ["  Good"; "Bad  "]]
             [("Hamcrest", ["Good"; "Bad"])] "Hamcrest" ["Good"; "Bad"]
             eq_refl eq_refl).
Defined.
